(** * RoboRev terminal dashboard: the review-queue TUI model

    A shallow embedding of [internal/tui] (the bubbletea model of the
    review queue): the [Model] record, the [Update] reducer, the two
    renderers behind [View], and the text wrapper [wrapText]; and of
    [internal/prompt], the builder of review prompts, over the answers of
    git and of the review database.

    Conventions.
    - Go's [int] is a 64-bit two's complement integer.  It is modelled as
      [Z]; every [+], [-], [++] and [--] of the source goes through
      [int_add] / [int_sub], which wrap around.
    - Go's [string] is an immutable byte sequence; it is modelled as
      [string] (a sequence of 8-bit [ascii]).  [len] is the byte length.
    - A run-time panic (index out of range, nil dereference, negative
      repeat count) is a value of the result type [go]. *)

From Stdlib Require Import ZArith List String Ascii Bool Lia.
From Stdlib Require Import DecimalString.
Import ListNotations.

Local Open Scope string_scope.
Local Open Scope Z_scope.

(* ================================================================== *)
(** ** Machine integers *)

Module GoInt.

Definition int_min : Z := - 2 ^ 63.
Definition int_max : Z := 2 ^ 63 - 1.

(** Two's complement wrap-around of a 64-bit signed integer. *)
Definition wrap (z : Z) : Z := (z + 2 ^ 63) mod 2 ^ 64 - 2 ^ 63.

Definition int_add (a b : Z) : Z := wrap (a + b).
Definition int_sub (a b : Z) : Z := wrap (a - b).

(** Go's [/] on [int] truncates toward zero. *)
Definition int_div (a b : Z) : Z := wrap (Z.quot a b).

(** A value an [int] variable can hold. *)
Definition fits_int (z : Z) : Prop := int_min <= z <= int_max.

End GoInt.
Import GoInt.

(* ================================================================== *)
(** ** Panics *)

Inductive panic : Type :=
| IndexOutOfRange
| NilDereference
| NegativeRepeatCount.

(** The outcome of a Go computation that may panic. *)
Inductive go (A : Type) : Type :=
| Ok (a : A)
| Panic (p : panic).
Arguments Ok {A} a.
Arguments Panic {A} p.

Definition bind {A B : Type} (c : go A) (k : A -> go B) : go B :=
  match c with
  | Ok a => k a
  | Panic p => Panic p
  end.

Notation "x <- c ;; k" := (bind c (fun x => k))
  (at level 61, c at next level, right associativity).

(* ================================================================== *)
(** ** Byte strings *)

Module GoString.

Definition space : ascii := " "%char.
Definition newline : ascii := ascii_of_nat 10.
Definition nl : string := String newline "".

(** [len(s)] *)
Definition len (s : string) : Z := Z.of_nat (String.length s).

Fixpoint take (n : nat) (s : string) : string :=
  match n, s with
  | O, _ => ""
  | S _, "" => ""
  | S k, String c r => String c (take k r)
  end.

Fixpoint drop (n : nat) (s : string) : string :=
  match n, s with
  | O, _ => s
  | S _, "" => ""
  | S k, String _ r => drop k r
  end.

(** [s[:hi]]; every call site of the source guards [0 <= hi <= len(s)]. *)
Definition slice_to (s : string) (hi : Z) : string := take (Z.to_nat hi) s.

(** [s[lo:]]; every call site of the source guards [0 <= lo <= len(s)]. *)
Definition slice_from (s : string) (lo : Z) : string := drop (Z.to_nat lo) s.

(** [s[i]] for an index the source has checked against [len(s)]. *)
Definition byte_at (s : string) (i : Z) : option ascii :=
  if i <? 0 then None else String.get (Z.to_nat i) s.

Definition is_space_at (s : string) (i : Z) : bool :=
  match byte_at s i with
  | Some c => Ascii.eqb c space
  | None => false
  end.

(** [strings.TrimLeft(s, " ")] *)
Fixpoint TrimLeft (s : string) : string :=
  match s with
  | String c r => if Ascii.eqb c space then TrimLeft r else s
  | "" => ""
  end.

(** [strings.Split(s, "\n")]: never empty, [Split "" = [""]]. *)
Fixpoint Split (s : string) : list string :=
  match s with
  | "" => [""]
  | String c r =>
      if Ascii.eqb c newline then "" :: Split r
      else match Split r with
           | h :: t => String c h :: t
           | [] => [String c ""]
           end
  end.

(** [strings.Join(l, "\n")] *)
Fixpoint Join (l : list string) : string :=
  match l with
  | [] => ""
  | [s] => s
  | s :: t => s ++ nl ++ Join t
  end.

(** [strings.Repeat(s, count)] panics on a negative count. *)
Fixpoint repeat_nat (s : string) (n : nat) : string :=
  match n with
  | O => ""
  | S k => s ++ repeat_nat s k
  end.

Definition Repeat (s : string) (count : Z) : go string :=
  if count <? 0 then Panic NegativeRepeatCount
  else Ok (repeat_nat s (Z.to_nat count)).

(** The concatenation of a list of strings. *)
Fixpoint concat (l : list string) : string :=
  match l with
  | [] => ""
  | s :: t => s ++ concat t
  end.

(** [%d] of [fmt.Sprintf]. *)
Definition itoa (z : Z) : string := NilZero.string_of_int (Z.to_int z).

End GoString.
Import GoString.

(* ================================================================== *)
(** ** The text wrapper *)

(** The inner scan of [wrapText]:
    [for i := width; i > width/2; i-- { if i < len(line) && line[i] == ' ' {...; break} }].
    [steps] bounds the number of iterations; the result is the value of
    [breakPoint] after the loop, which starts as [width]. *)
Fixpoint scanBreak (steps : nat) (line : string) (width i : Z) : Z :=
  match steps with
  | O => width
  | S k =>
      if i >? int_div width 2 then
        if (i <? len line) && is_space_at line i then i
        else scanBreak k line width (int_sub i 1)
      else width
  end.

Definition breakPoint (line : string) (width : Z) : Z :=
  scanBreak (Z.to_nat width) line width width.

(** The loop [for len(line) > width { ... }] followed by
    [if len(line) > 0 { result = append(result, line) }]: the lines it
    appends to [result].  [fuel] bounds the number of iterations. *)
Fixpoint wrapLong (fuel : nat) (line : string) (width : Z) : list string :=
  match fuel with
  | O => []
  | S k =>
      if len line >? width then
        let bp := breakPoint line width in
        slice_to line bp :: wrapLong k (TrimLeft (slice_from line bp)) width
      else if len line >? 0 then [line]
      else []
  end.

(** The same loop with the fuel it needs: every iteration removes at
    least one byte from [line]. *)
Definition wrapLoop (line : string) (width : Z) : list string :=
  wrapLong (S (String.length line)) line width.

(** The body of the [range] loop: what one input line appends. *)
Definition wrapLine (width : Z) (line : string) : list string :=
  if len line <=? width then [line]
  else wrapLoop line width.

Definition wrapText (text : string) (width : Z) : list string :=
  let width := if width <=? 0 then 100 else width in
  fold_left (fun result line => (result ++ wrapLine width line)%list)
            (Split text) [].

(* ================================================================== *)
(** ** Data model *)

(** Modelled from the spec: the declarations of package [storage]
    ([ReviewJob], [DaemonStatus], [Review] and the [JobStatus] constants)
    are not part of the sources at hand.  The records carry the fields the
    TUI reads; an optional value of the source (a pointer) is an [option]. *)
Module storage.

Definition Time : Type := Z.

Definition JobStatus : Type := string.
Definition JobStatusQueued : JobStatus := "queued".
Definition JobStatusRunning : JobStatus := "running".
Definition JobStatusDone : JobStatus := "done".
Definition JobStatusFailed : JobStatus := "failed".

Record ReviewJob : Type := mkReviewJob {
  ID : Z;
  GitRef : string;
  RepoName : string;
  Agent : string;
  Status : JobStatus;
  StartedAt : option Time;
  FinishedAt : option Time;
  Error : string
}.

Record DaemonStatus : Type := mkDaemonStatus {
  ActiveWorkers : Z;
  MaxWorkers : Z;
  QueuedJobs : Z;
  RunningJobs : Z;
  CompletedJobs : Z;
  FailedJobs : Z
}.

(** [ReviewAgent] is the field [Agent] of [Review]. *)
Record Review : Type := mkReview {
  ReviewAgent : string;
  Output : string;
  Job : option ReviewJob
}.

Definition zeroStatus : DaemonStatus := mkDaemonStatus 0 0 0 0 0 0.

End storage.
Import storage.

Inductive view : Type := viewQueue | viewReview.

Definition view_eqb (a b : view) : bool :=
  match a, b with
  | viewQueue, viewQueue | viewReview, viewReview => true
  | _, _ => false
  end.

(** [Model] is the TUI model for the review queue. *)
Record Model : Type := mkModel {
  serverAddr : string;
  jobs : list ReviewJob;
  status : DaemonStatus;
  selectedIdx : Z;
  currentView : view;
  currentReview : option Review;
  reviewScroll : Z;
  width : Z;
  height : Z;
  err : option string
}.

(** The messages [Update] receives.  [errMsg] always carries a non-nil
    error; [otherMsg] stands for every message type the switch does not
    name. *)
Inductive Msg : Type :=
| KeyMsg (key : string)
| WindowSizeMsg (Width Height : Z)
| tickMsg
| jobsMsg (js : list ReviewJob)
| statusMsg (s : DaemonStatus)
| reviewMsg (r : option Review)
| errMsg (e : string)
| otherMsg.

(** One asynchronous operation handed to the runtime. *)
Inductive Effect : Type :=
| Quit
| WindowSize
| Tick
| FetchJobs (addr : string)
| FetchStatus (addr : string)
| FetchReview (addr : string) (jobID : Z).

(** A [tea.Cmd]: [nil] is the empty list, [tea.Batch] a list. *)
Definition Cmd : Type := list Effect.

Definition NewModel (addr : string) : Model :=
  {| serverAddr := addr;
     jobs := [];
     status := zeroStatus;
     selectedIdx := 0;
     currentView := viewQueue;
     currentReview := None;
     reviewScroll := 0;
     width := 80;
     height := 24;
     err := None |}.

Definition tick (m : Model) : Effect := Tick.
Definition fetchJobs (m : Model) : Effect := FetchJobs (serverAddr m).
Definition fetchStatus (m : Model) : Effect := FetchStatus (serverAddr m).
Definition fetchReview (m : Model) (jobID : Z) : Effect :=
  FetchReview (serverAddr m) jobID.

Definition Init (m : Model) : Cmd :=
  [WindowSize; tick m; fetchJobs m; fetchStatus m].

(** *** Field assignments *)

Definition set_jobs (m : Model) (v : list ReviewJob) : Model :=
  mkModel (serverAddr m) v (status m) (selectedIdx m) (currentView m)
          (currentReview m) (reviewScroll m) (width m) (height m) (err m).

Definition set_status (m : Model) (v : DaemonStatus) : Model :=
  mkModel (serverAddr m) (jobs m) v (selectedIdx m) (currentView m)
          (currentReview m) (reviewScroll m) (width m) (height m) (err m).

Definition set_selectedIdx (m : Model) (v : Z) : Model :=
  mkModel (serverAddr m) (jobs m) (status m) v (currentView m)
          (currentReview m) (reviewScroll m) (width m) (height m) (err m).

Definition set_currentView (m : Model) (v : view) : Model :=
  mkModel (serverAddr m) (jobs m) (status m) (selectedIdx m) v
          (currentReview m) (reviewScroll m) (width m) (height m) (err m).

Definition set_currentReview (m : Model) (v : option Review) : Model :=
  mkModel (serverAddr m) (jobs m) (status m) (selectedIdx m) (currentView m)
          v (reviewScroll m) (width m) (height m) (err m).

Definition set_reviewScroll (m : Model) (v : Z) : Model :=
  mkModel (serverAddr m) (jobs m) (status m) (selectedIdx m) (currentView m)
          (currentReview m) v (width m) (height m) (err m).

Definition set_width (m : Model) (v : Z) : Model :=
  mkModel (serverAddr m) (jobs m) (status m) (selectedIdx m) (currentView m)
          (currentReview m) (reviewScroll m) v (height m) (err m).

Definition set_height (m : Model) (v : Z) : Model :=
  mkModel (serverAddr m) (jobs m) (status m) (selectedIdx m) (currentView m)
          (currentReview m) (reviewScroll m) (width m) v (err m).

Definition set_err (m : Model) (v : option string) : Model :=
  mkModel (serverAddr m) (jobs m) (status m) (selectedIdx m) (currentView m)
          (currentReview m) (reviewScroll m) (width m) (height m) v.

(** [len(l)] of a slice. *)
Definition llen {A : Type} (l : list A) : Z := Z.of_nat (List.length l).

(** [l[i]]: panics when [i] is out of range. *)
Definition index {A : Type} (l : list A) (i : Z) : go A :=
  if (i <? 0) || (i >=? llen l) then Panic IndexOutOfRange
  else match nth_error l (Z.to_nat i) with
       | Some a => Ok a
       | None => Panic IndexOutOfRange
       end.

(** [p != nil] *)
Definition not_nil {A : Type} (p : option A) : bool :=
  match p with Some _ => true | None => false end.

(** Leaving the review screen: the body shared by [q], [ctrl+c] and [esc]. *)
Definition backToQueue (m : Model) : Model :=
  let m := set_currentView m viewQueue in
  let m := set_currentReview m None in
  set_reviewScroll m 0.

Definition key_in (key : string) (names : list string) : bool :=
  existsb (String.eqb key) names.

(* ================================================================== *)
(** ** The reducer *)

(** [Update] implements [tea.Model]. *)
Definition Update (m : Model) (msg : Msg) : go (Model * Cmd) :=
  match msg with
  | KeyMsg key =>
      if key_in key ["ctrl+c"; "q"] then
        if view_eqb (currentView m) viewReview then Ok (backToQueue m, [])
        else Ok (m, [Quit])
      else if key_in key ["up"; "k"] then
        if view_eqb (currentView m) viewQueue then
          if selectedIdx m >? 0
          then Ok (set_selectedIdx m (int_sub (selectedIdx m) 1), [])
          else Ok (m, [])
        else
          if reviewScroll m >? 0
          then Ok (set_reviewScroll m (int_sub (reviewScroll m) 1), [])
          else Ok (m, [])
      else if key_in key ["down"; "j"] then
        if view_eqb (currentView m) viewQueue then
          if selectedIdx m <? int_sub (llen (jobs m)) 1
          then Ok (set_selectedIdx m (int_add (selectedIdx m) 1), [])
          else Ok (m, [])
        else Ok (set_reviewScroll m (int_add (reviewScroll m) 1), [])
      else if key_in key ["enter"] then
        if view_eqb (currentView m) viewQueue && (llen (jobs m) >? 0) then
          job <- index (jobs m) (selectedIdx m) ;;
          if String.eqb (Status job) JobStatusDone then
            Ok (m, [fetchReview m (ID job)])
          else if String.eqb (Status job) JobStatusFailed then
            let m := set_currentReview m
                       (Some {| ReviewAgent := Agent job;
                                Output := "Job failed:" ++ nl ++ nl ++ Error job;
                                Job := Some job |}) in
            let m := set_currentView m viewReview in
            let m := set_reviewScroll m 0 in
            Ok (m, [])
          else Ok (m, [])
        else Ok (m, [])
      else if key_in key ["esc"] then
        if view_eqb (currentView m) viewReview then Ok (backToQueue m, [])
        else Ok (m, [])
      else Ok (m, [])
  | WindowSizeMsg w h =>
      let m := set_width m w in
      let m := set_height m h in
      Ok (m, [])
  | tickMsg => Ok (m, [tick m; fetchJobs m; fetchStatus m])
  | jobsMsg js =>
      let m := set_jobs m js in
      if selectedIdx m >=? llen (jobs m)
      then Ok (set_selectedIdx m (Z.max 0 (int_sub (llen (jobs m)) 1)), [])
      else Ok (m, [])
  | statusMsg s => Ok (set_status m s, [])
  | reviewMsg r =>
      let m := set_currentReview m r in
      let m := set_currentView m viewReview in
      let m := set_reviewScroll m 0 in
      Ok (m, [])
  | errMsg e => Ok (set_err m (Some e), [])
  | otherMsg => Ok (m, [])
  end.

(** The event loop: the messages of [msgs] folded into the model in the
    order they are delivered. *)
Fixpoint run (m : Model) (msgs : list Msg) : go Model :=
  match msgs with
  | [] => Ok m
  | msg :: rest =>
      r <- Update m msg ;;
      run (fst r) rest
  end.

(* ================================================================== *)
(** ** Rendering *)

(** What the renderers take from outside the package: the [Render]
    method of each lipgloss style, the rune count [fmt] pads with, and
    the clock-dependent formatting of an elapsed time. *)
Class Terminal : Type := {
  titleStyle : string -> string;
  statusStyle : string -> string;
  selectedStyle : string -> string;
  queuedStyle : string -> string;
  runningStyle : string -> string;
  doneStyle : string -> string;
  failedStyle : string -> string;
  helpStyle : string -> string;
  (** [utf8.RuneCountInString] *)
  RuneCountInString : string -> nat;
  (** [finished.Sub(started).Round(time.Second).String()] *)
  elapsedBetween : forall (finished started : Time), string;
  (** [time.Since(started).Round(time.Second).String()] *)
  elapsedSince : forall (started : Time), string
}.

(** A plain terminal: styles leave the text as it is, the clock stands
    at 0 and durations print as a number of seconds. *)
Definition plainTerminal : Terminal :=
  {| titleStyle := fun s => s;
     statusStyle := fun s => s;
     selectedStyle := fun s => s;
     queuedStyle := fun s => s;
     runningStyle := fun s => s;
     doneStyle := fun s => s;
     failedStyle := fun s => s;
     helpStyle := fun s => s;
     RuneCountInString := String.length;
     elapsedBetween := fun f s => itoa (f - s) ++ "s";
     elapsedSince := fun s => itoa (0 - s) ++ "s" |}.

(** *** The list windower *)

(** [visibleJobs := m.height - reservedLines], raised to 3. *)
Definition visibleJobs (height : Z) : Z :=
  let reservedLines := 9 in
  let visibleJobs := int_sub height reservedLines in
  if visibleJobs <? 3 then 3 else visibleJobs.

(** The [start] and [end] of the rows [renderQueueView] shows, from
    [n = len(m.jobs)], [visibleJobs] and [m.selectedIdx]. *)
Definition queueWindow (n visibleJobs selectedIdx : Z) : Z * Z :=
  let start := 0 in
  let end_ := n in
  if n >? visibleJobs then
    let start := int_sub selectedIdx (int_div visibleJobs 2) in
    let start := if start <? 0 then 0 else start in
    let end_ := int_add start visibleJobs in
    if end_ >? n then
      let end_ := n in
      let start := int_sub end_ visibleJobs in
      (start, end_)
    else (start, end_)
  else (start, end_).

(** [fmt.Sprintf("[showing %d-%d of %d]", start+1, end, len(m.jobs))] *)
Definition queueScrollInfo (start end_ n : Z) : string :=
  "[showing " ++ itoa (int_add start 1) ++ "-" ++ itoa end_
    ++ " of " ++ itoa n ++ "]".

(** *** The review pager *)

Definition wrapWidth (m : Model) : Z := Z.min (int_sub (width m) 2) 100.

Definition visibleLines (m : Model) : Z := int_sub (height m) 5.

(** The first line shown: [m.reviewScroll], pulled back to the last
    line when it is past the end. *)
Definition reviewStart (reviewScroll nlines : Z) : Z :=
  let start := reviewScroll in
  if start >=? nlines then Z.max 0 (int_sub nlines 1) else start.

Definition reviewEnd (start visibleLines nlines : Z) : Z :=
  Z.min (int_add start visibleLines) nlines.

(** [fmt.Sprintf("[%d-%d of %d lines]", start+1, end, len(lines))] *)
Definition reviewScrollInfo (start end_ n : Z) : string :=
  "[" ++ itoa (int_add start 1) ++ "-" ++ itoa end_
    ++ " of " ++ itoa n ++ " lines]".

(** [for i := start; i < end; i++ { b.WriteString(body(i)) }] on the
    builder [b]; [fuel] bounds the number of iterations. *)
Fixpoint forRange (fuel : nat) (i end_ : Z) (body : Z -> go string)
         (b : string) : go string :=
  match fuel with
  | O => Ok b
  | S k =>
      if i <? end_ then
        s <- body i ;;
        forRange k (int_add i 1) end_ body (b ++ s)
      else Ok b
  end.

Section Render.

Context {T : Terminal}.

(** [%-Ns]: the string, then spaces up to [N] runes. *)
Definition padRunes (n : nat) (s : string) : string :=
  s ++ repeat_nat " " (n - RuneCountInString s).

(** [%-Nd]: the decimal digits, then spaces up to [N] characters. *)
Definition padInt (n : nat) (z : Z) : string :=
  let s := itoa z in s ++ repeat_nat " " (n - String.length s).

Definition renderJobLine (job : ReviewJob) : go string :=
  let ref := GitRef job in
  let ref := if len ref >? 17 then slice_to ref 17 else ref in
  let repo := RepoName job in
  let repo := if len repo >? 15 then slice_to repo 12 ++ "..." else repo in
  let agent := Agent job in
  let agent := if len agent >? 12 then slice_to agent 12 else agent in
  let elapsed :=
    match StartedAt job with
    | Some started =>
        match FinishedAt job with
        | Some finished => elapsedBetween finished started
        | None => elapsedSince started
        end
    | None => ""
    end in
  let status := Status job in
  let styledStatus :=
    if String.eqb status JobStatusQueued then queuedStyle status
    else if String.eqb status JobStatusRunning then runningStyle status
    else if String.eqb status JobStatusDone then doneStyle status
    else if String.eqb status JobStatusFailed then failedStyle status
    else status in
  let padding := int_sub 8 (len status) in
  styledStatus <-
    (if padding >? 0 then
       pad <- Repeat " " padding ;; Ok (styledStatus ++ pad)
     else Ok styledStatus) ;;
  Ok (padInt 4 (ID job) ++ " " ++ padRunes 17 ref ++ " "
        ++ padRunes 15 repo ++ " " ++ padRunes 12 agent ++ " "
        ++ styledStatus ++ " " ++ elapsed).

Definition renderQueueView (m : Model) : go string :=
  let b := "" in
  let b := b ++ titleStyle "RoboRev Queue" in
  let b := b ++ nl in
  let statusLine :=
    "Workers: " ++ itoa (ActiveWorkers (status m)) ++ "/"
      ++ itoa (MaxWorkers (status m))
      ++ " | Queued: " ++ itoa (QueuedJobs (status m))
      ++ " | Running: " ++ itoa (RunningJobs (status m))
      ++ " | Done: " ++ itoa (CompletedJobs (status m))
      ++ " | Failed: " ++ itoa (FailedJobs (status m))
      ++ " | Size: " ++ itoa (width m) ++ "x" ++ itoa (height m) in
  let b := b ++ statusStyle statusLine in
  let b := b ++ nl ++ nl in
  b <-
    (if llen (jobs m) =? 0 then Ok (b ++ "No jobs in queue" ++ nl)
     else
       let header :=
         "  " ++ padRunes 4 "ID" ++ " " ++ padRunes 17 "Ref" ++ " "
           ++ padRunes 15 "Repo" ++ " " ++ padRunes 12 "Agent" ++ " "
           ++ padRunes 8 "Status" ++ " " ++ "Time" in
       let b := b ++ statusStyle header in
       let b := b ++ nl in
       rule <- Repeat "-" (Z.min (int_sub (width m) 4) 78) ;;
       let b := b ++ "  " ++ rule in
       let b := b ++ nl in
       let visibleJobs := visibleJobs (height m) in
       let '(start, end_) :=
         queueWindow (llen (jobs m)) visibleJobs (selectedIdx m) in
       b <- forRange (Z.to_nat (end_ - start)) start end_
              (fun i =>
                 job <- index (jobs m) i ;;
                 line <- renderJobLine job ;;
                 let line :=
                   if i =? selectedIdx m then selectedStyle ("> " ++ line)
                   else "  " ++ line in
                 Ok (line ++ nl))
              b ;;
       if llen (jobs m) >? visibleJobs then
         let scrollInfo := queueScrollInfo start end_ (llen (jobs m)) in
         let b := b ++ statusStyle scrollInfo in
         Ok (b ++ nl)
       else Ok b) ;;
  Ok (b ++ helpStyle "up/down: navigate | enter: view review | q: quit").

Definition renderReviewView (m : Model) : go string :=
  let b := "" in
  match currentReview m with
  | None => Panic NilDereference
  | Some review =>
      let b :=
        match Job review with
        | Some job =>
            let ref := GitRef job in
            let ref := if len ref >? 17 then slice_to ref 17 else ref in
            let title :=
              "Review: " ++ ref ++ " (" ++ ReviewAgent review ++ ")" in
            b ++ titleStyle title
        | None => b ++ titleStyle "Review"
        end in
      let b := b ++ nl in
      let wrapWidth := wrapWidth m in
      let lines := wrapText (Output review) wrapWidth in
      let visibleLines := visibleLines m in
      let start := reviewStart (reviewScroll m) (llen lines) in
      let end_ := reviewEnd start visibleLines (llen lines) in
      b <- forRange (Z.to_nat (end_ - start)) start end_
             (fun i => line <- index lines i ;; Ok (line ++ nl))
             b ;;
      let b :=
        if llen lines >? visibleLines then
          let scrollInfo := reviewScrollInfo start end_ (llen lines) in
          let b := b ++ statusStyle scrollInfo in
          b ++ nl
        else b in
      Ok (b ++ helpStyle "up/down: scroll | esc/q: back")
  end.

(** [View] implements [tea.Model]. *)
Definition View (m : Model) : go string :=
  if view_eqb (currentView m) viewReview && not_nil (currentReview m)
  then renderReviewView m
  else renderQueueView m.

End Render.

(* ================================================================== *)
(** ** Scenarios *)

(** The failed job of the inspection scenario, alone in the list. *)
Definition job7 : ReviewJob :=
  {| ID := 7; GitRef := ""; RepoName := ""; Agent := "";
     Status := JobStatusFailed; StartedAt := None; FinishedAt := None;
     Error := "panic: nil pointer" |}.

Definition queueOfJob7 : Model := set_jobs (NewModel "") [job7].

(** A job still waiting in the queue. *)
Definition job8 : ReviewJob :=
  {| ID := 8; GitRef := "HEAD"; RepoName := "roborev"; Agent := "codex";
     Status := JobStatusQueued; StartedAt := None; FinishedAt := None;
     Error := "" |}.

Definition queueOfJob8 : Model := set_jobs (NewModel "") [job8].

(** The review screen selected while no review is held. *)
Definition reviewWithoutPayload : Model :=
  set_currentView (NewModel "") viewReview.

(** A computation that does not end in a nil dereference. *)
Definition no_nil_deref {A : Type} (c : go A) : Prop :=
  c <> Panic NilDereference.

(* ================================================================== *)
(** ** Invariants of the model *)

(** The selection points into the job list: the index of one of its
    entries, or 0 when there is none. *)
Definition selection_ok (m : Model) : Prop :=
  let n := llen (jobs m) in
  (n = 0 -> selectedIdx m = 0)
  /\ (0 < n -> 0 <= selectedIdx m <= n - 1).

(** The length of a slice is an [int]. *)
Definition jobs_fit (m : Model) : Prop := llen (jobs m) <= int_max.

(** A message whose [int] fields hold [int] values and whose slice has an
    [int] length. *)
Definition Msg_wf (msg : Msg) : Prop :=
  match msg with
  | WindowSizeMsg w h => fits_int w /\ fits_int h
  | jobsMsg js => llen js <= int_max
  | _ => True
  end.

(** The number of display lines of the held review at the current width. *)
Definition totalWrappedLines (m : Model) (r : Review) : Z :=
  llen (wrapText (Output r) (wrapWidth m)).

(** The stored scroll offset stays within the wrapped content while the
    review screen is active. *)
Definition scroll_within_content (m : Model) : Prop :=
  currentView m = viewReview ->
  forall r : Review,
    currentReview m = Some r ->
    0 <= reviewScroll m <= Z.max 0 (totalWrappedLines m r - 1).

(** The operator opens the failed job 7 and presses [down] three times. *)
Definition scrollPastEnd : list Msg :=
  [jobsMsg [job7]; KeyMsg "enter"; KeyMsg "down"; KeyMsg "j"; KeyMsg "down"].

(* ================================================================== *)
(** ** What the wrapper removes *)

(** The spaces [strings.TrimLeft(s, " ")] takes off the front of [s]. *)
Fixpoint leadingSpaces (s : string) : string :=
  match s with
  | String c r => if Ascii.eqb c space then String c (leadingSpaces r) else ""
  | "" => ""
  end.

(** A string of spaces only (possibly empty). *)
Fixpoint all_spaces (s : string) : bool :=
  match s with
  | String c r => Ascii.eqb c space && all_spaces r
  | "" => true
  end.

(** For every line [wrapLong] emits, the bytes of the input it dropped
    right after that line: the spaces trimmed at the break, nothing after
    the last line. *)
Fixpoint wrapLongGaps (fuel : nat) (line : string) (width : Z) : list string :=
  match fuel with
  | O => []
  | S k =>
      if len line >? width then
        let bp := breakPoint line width in
        leadingSpaces (slice_from line bp)
          :: wrapLongGaps k (TrimLeft (slice_from line bp)) width
      else if len line >? 0 then [""]
      else []
  end.

Definition wrapLineGaps (width : Z) (line : string) : list string :=
  if len line <=? width then [""]
  else wrapLongGaps (S (String.length line)) line width.

(** [chunks] and [gaps] in turn: chunk, gap, chunk, gap, ... *)
Fixpoint weave (chunks gaps : list string) : string :=
  match chunks, gaps with
  | c :: cs, g :: gs => c ++ g ++ weave cs gs
  | _, _ => ""
  end.

(** A break is soft when spaces were trimmed at it; re-joining puts one
    space there, and nothing at a hard break. *)
Definition joint (gap : string) : string :=
  match gap with
  | "" => ""
  | String _ _ => " "
  end.

Definition rejoin (chunks gaps : list string) : string :=
  weave chunks (map joint gaps).

(** A byte that is neither a space nor a line break. *)
Definition is_ink (c : ascii) : bool :=
  negb (Ascii.eqb c space || Ascii.eqb c newline).

(** The bytes of [s] other than spaces and line breaks, in order. *)
Fixpoint ink (s : string) : string :=
  match s with
  | String c r => if is_ink c then String c (ink r) else ink r
  | "" => ""
  end.

(** The first byte of [s] is not a space (and [s] is not empty). *)
Definition starts_unspaced (s : string) : Prop :=
  match s with
  | String c _ => c <> space
  | "" => False
  end.

(** [bp] is where [wrapText] breaks a line longer than [width]: at the
    last index in [(width/2, width]] that holds a space, or at [width]
    when no index of that range holds one. *)
Definition last_space_break (line : string) (width bp : Z) : Prop :=
  (is_space_at line bp = true
   /\ width / 2 < bp <= width
   /\ forall j : Z, bp < j <= width -> is_space_at line j = false)
  \/ (bp = width
      /\ forall j : Z, width / 2 < j <= width -> is_space_at line j = false).


(** A line that needs two soft breaks at width 7, and a text with an
    empty line, a run of spaces at a break and a word that needs a hard
    break at width 4. *)
Definition sampleLine : string := "hello world foo bar".

Definition sampleText : string :=
  "aaaa     bbbb" ++ nl ++ nl ++ "abcdefghij k".


(** [s] ends with [suffix]. *)
Definition HasSuffix (s suffix : string) : bool :=
  (String.length suffix <=? String.length s)%nat
  && String.eqb (drop (String.length s - String.length suffix) s) suffix.

(** The windowed-footer scenario: 100 jobs on a terminal of 19 rows (a
    viewport of 10), the job at index 50 selected. *)
Definition hundredJobs : Model :=
  set_selectedIdx
    (set_height (set_jobs (NewModel "") (List.repeat job8 100)) 19) 50.

(* ================================================================== *)
(** ** Screens, keys and traces *)

(** The two screens as the reducer leaves them: the queue screen holds no
    review and has its scroll offset at 0; the review screen holds a
    review. *)
Definition screen_ok (m : Model) : Prop :=
  match currentView m with
  | viewQueue => currentReview m = None /\ reviewScroll m = 0
  | viewReview => currentReview m <> None
  end.

(** A message as the fetchers produce it: [fetchReview] only ever sends
    the address of a decoded review, never nil. *)
Definition review_delivered (msg : Msg) : Prop :=
  match msg with
  | reviewMsg None => False
  | _ => True
  end.

(** The same key pressed [k] times. *)
Definition presses (key : string) (k : nat) : list Msg :=
  List.repeat (KeyMsg key) k.

(** The keys that scroll or move the selection. *)
Definition scroll_key (key : string) : bool :=
  key_in key ["up"; "k"; "down"; "j"].

(** The keys that leave the review screen. *)
Definition back_key (key : string) : bool :=
  key_in key ["ctrl+c"; "q"; "esc"].

(** Job 7 in the list with the selection left dangling after it. *)
Definition danglingSelection : Model := set_selectedIdx queueOfJob7 5.

(** A finished job, and a queue of three jobs. *)
Definition job9 : ReviewJob :=
  {| ID := 9; GitRef := "0123456789abcdef0123456789abcdef01234567";
     RepoName := "a-very-long-repository-name"; Agent := "claude-code-agent";
     Status := JobStatusDone; StartedAt := Some 10; FinishedAt := Some 75;
     Error := "" |}.

Definition threeJobs : Model :=
  set_jobs (NewModel "http://127.0.0.1:7373") [job7; job8; job9].

Definition review9 : Review :=
  {| ReviewAgent := "codex"; Output := "No issues found."; Job := Some job9 |}.

(* ================================================================== *)
(** ** The columns of a job row *)

(** The git reference as [renderJobLine] shows it: the first 17 bytes. *)
Definition refColumn (job : ReviewJob) : string :=
  let ref := GitRef job in
  if len ref >? 17 then slice_to ref 17 else ref.

(** The repository name as [renderJobLine] shows it: when longer than 15
    bytes, its first 12 bytes and an ellipsis. *)
Definition repoColumn (job : ReviewJob) : string :=
  let repo := RepoName job in
  if len repo >? 15 then slice_to repo 12 ++ "..." else repo.

(** The agent name as [renderJobLine] shows it: the first 12 bytes. *)
Definition agentColumn (job : ReviewJob) : string :=
  let agent := Agent job in
  if len agent >? 12 then slice_to agent 12 else agent.

(** [strings.HasPrefix(s, prefix)] *)
Definition HasPrefix (s prefix : string) : bool := String.prefix prefix s.

(** The review screen on a terminal too narrow for the queue rule. *)
Definition narrowQueue : Model := set_width threeJobs 3.

(* ================================================================== *)
(** ** Shapes of text *)

(** The width [wrapText] wraps at: 100 when the given one is not
    positive. *)
Definition effectiveWidth (width : Z) : Z :=
  if width <=? 0 then 100 else width.

(** No byte of [s] is a line break. *)
Fixpoint no_newline (s : string) : bool :=
  match s with
  | String c r => negb (Ascii.eqb c newline) && no_newline r
  | "" => true
  end.

(** No byte of [s] is a space. *)
Fixpoint no_space (s : string) : bool :=
  match s with
  | String c r => negb (Ascii.eqb c space) && no_space r
  | "" => true
  end.

(** A long identifier with nothing to break at, and a note that fits. *)
Definition longWord : string := "abcdefghijklmnopqrstuvwxyz".

Definition shortNote : string := "LGTM" ++ nl ++ nl ++ "ship it".

(* ================================================================== *)
(** ** The parts of the review frame *)

(** [lines[start:end]], empty when [end <= start]. *)
Definition shownLines (lines : list string) (start end_ : Z) : list string :=
  firstn (Z.to_nat (end_ - start)) (skipn (Z.to_nat start) lines).

(** The unstyled title of the review screen. *)
Definition reviewTitle (review : Review) : string :=
  match Job review with
  | Some job => "Review: " ++ refColumn job ++ " (" ++ ReviewAgent review ++ ")"
  | None => "Review"
  end.

(** A review of forty numbered remarks, one per line. *)
Definition longReview : Review :=
  {| ReviewAgent := "codex";
     Output := Join (map (fun i => "remark " ++ itoa (Z.of_nat i)) (seq 1 40));
     Job := Some job9 |}.

(** The review screen of [longReview] on the default 80x24 terminal,
    scrolled far past the end. *)
Definition scrolledFar : Model :=
  set_reviewScroll
    (set_currentView (set_currentReview (NewModel "") (Some longReview))
                     viewReview) 1000.

(** The status cell of a job row: the styled status, then spaces up to 8
    bytes of unstyled status. *)
Definition statusColumn {T : Terminal} (job : ReviewJob) : string :=
  let status := Status job in
  let styledStatus :=
    if String.eqb status JobStatusQueued then queuedStyle status
    else if String.eqb status JobStatusRunning then runningStyle status
    else if String.eqb status JobStatusDone then doneStyle status
    else if String.eqb status JobStatusFailed then failedStyle status
    else status in
  styledStatus ++ repeat_nat " " (Z.to_nat (8 - len status)).

(** The elapsed-time cell of a job row. *)
Definition elapsedColumn {T : Terminal} (job : ReviewJob) : string :=
  match StartedAt job with
  | Some started =>
      match FinishedAt job with
      | Some finished => elapsedBetween finished started
      | None => elapsedSince started
      end
  | None => ""
  end.

(* ================================================================== *)
(** ** Review prompts (package [prompt]) *)

(** A Go call that returns a value and an [error]: the value on success,
    the error's message on failure. *)
Inductive result (A : Type) : Type :=
| Success (a : A)
| Failure (err : string).
Arguments Success {A} a.
Arguments Failure {A} err.

(** What the prompt builder asks of package [git], for the repository at
    a path: whether a reference is a range, the commit a range starts
    from, the commits of a range, the subject line of a commit
    ([GetCommitInfo(...).Subject]) and the parents of a commit. *)
Class Git : Type := {
  IsRange : string -> bool;
  GetRangeStart : forall (repoPath rangeRef : string), result string;
  GetRangeCommits : forall (repoPath rangeRef : string), result (list string);
  GetCommitSubject : forall (repoPath sha : string), result string;
  GetParentCommits : forall (repoPath sha : string) (count : Z),
      result (list string)
}.

(** The review database, as the builder uses it:
    [db.GetReviewByCommitSHA(sha)]. *)
Definition DB : Type := string -> result (option Review).

Module prompt.

(** [SystemPromptSingle] is the base instruction for single commit reviews. *)
Definition SystemPromptSingle : string :=
  "You are a code reviewer. Review the git commit shown below for:

1. **Bugs**: Logic errors, off-by-one errors, null/undefined issues, race conditions
2. **Security**: Injection vulnerabilities, auth issues, data exposure
3. **Testing gaps**: Missing unit tests, edge cases not covered, e2e/integration test gaps
4. **Regressions**: Changes that might break existing functionality
5. **Code quality**: Duplication that should be refactored, overly complex logic, unclear naming

After reviewing against all criteria above:

If you find issues, list them with:
- Severity (high/medium/low)
- File and line reference where possible
- A brief explanation of the problem and suggested fix

If you find no issues, confirm you checked for bugs, security issues, testing gaps,
regressions, and code quality concerns, then briefly summarize what the commit does.".

(** [SystemPromptRange] is the base instruction for commit range reviews. *)
Definition SystemPromptRange : string :=
  "You are a code reviewer. Review the git commit range shown below for:

1. **Bugs**: Logic errors, off-by-one errors, null/undefined issues, race conditions
2. **Security**: Injection vulnerabilities, auth issues, data exposure
3. **Testing gaps**: Missing unit tests, edge cases not covered, e2e/integration test gaps
4. **Regressions**: Changes that might break existing functionality
5. **Code quality**: Duplication that should be refactored, overly complex logic, unclear naming

After reviewing against all criteria above:

If you find issues, list them with:
- Severity (high/medium/low)
- File and line reference where possible
- A brief explanation of the problem and suggested fix

If you find no issues, confirm you checked for bugs, security issues, testing gaps,
regressions, and code quality concerns, then briefly summarize what the commits do.".

(** [PreviousReviewsHeader] introduces the previous reviews section. *)
Definition PreviousReviewsHeader : string :=
  "
## Previous Reviews

The following are reviews of recent commits in this repository. Use them as context
to understand ongoing work and to check if the current commit addresses previous feedback.
".

(** [ReviewContext] holds a commit SHA and its associated review (if any). *)
Record ReviewContext : Type := mkReviewContext {
  SHA : string;
  CtxReview : option Review
}.

(** [Builder] constructs review prompts; its database may be nil. *)
Record Builder : Type := mkBuilder {
  db : option DB
}.

Definition NewBuilder (db : option DB) : Builder := {| db := db |}.

(** [shortSHA := sha; if len(shortSHA) > 7 { shortSHA = shortSHA[:7] }] *)
Definition shortSHA (sha : string) : string :=
  if len sha >? 7 then slice_to sha 7 else sha.

(** What [writePreviousReviews] writes for one context. *)
Definition reviewSection (ctx : ReviewContext) : string :=
  "--- Review for commit " ++ shortSHA (SHA ctx) ++ " ---" ++ nl
    ++ match CtxReview ctx with
       | Some review => Output review
       | None => "No review available."
       end
    ++ nl ++ nl.

(** The loop [for i := len(contexts) - 1; i >= 0; i-- { ... }] of
    [writePreviousReviews], with [n = i + 1] rounds to go. *)
Fixpoint writeContextsDown (contexts : list ReviewContext) (n : nat)
         (sb : string) : string :=
  match n with
  | O => sb
  | S i =>
      match nth_error contexts i with
      | Some ctx => writeContextsDown contexts i (sb ++ reviewSection ctx)
      | None => sb
      end
  end.

(** [writePreviousReviews] writes the previous reviews section to the
    builder [sb]. *)
Definition writePreviousReviews (sb : string) (contexts : list ReviewContext)
  : string :=
  let sb := sb ++ PreviousReviewsHeader in
  let sb := sb ++ nl in
  writeContextsDown contexts (List.length contexts) sb.

Section Prompt.

Context {G : Git}.

(** [getPreviousReviewContexts] gets the N commits before the target and
    looks up their reviews.  Both callers check [b.db != nil] first. *)
Definition getPreviousReviewContexts (db : DB) (repoPath sha : string)
           (count : Z) : result (list ReviewContext) :=
  match GetParentCommits repoPath sha count with
  | Failure err => Failure ("get parent commits: " ++ err)
  | Success parentSHAs =>
      Success
        (fold_left
           (fun contexts parentSHA =>
              let ctx := {| SHA := parentSHA; CtxReview := None |} in
              let ctx :=
                match db parentSHA with
                | Success review => {| SHA := SHA ctx; CtxReview := review |}
                | Failure _ => ctx
                end in
              (contexts ++ [ctx])%list)
           parentSHAs [])
  end.

(** [buildSinglePrompt] constructs a prompt for a single commit. *)
Definition buildSinglePrompt (b : Builder) (repoPath sha : string)
           (repoID contextCount : Z) : result string :=
  let sb := "" in
  let sb := sb ++ SystemPromptSingle in
  let sb := sb ++ nl in
  let sb :=
    match db b with
    | Some db =>
        if contextCount >? 0 then
          match getPreviousReviewContexts db repoPath sha contextCount with
          | Failure _ => sb
          | Success contexts =>
              if llen contexts >? 0 then writePreviousReviews sb contexts
              else sb
          end
        else sb
    | None => sb
    end in
  let sb := sb ++ "## Current Commit" ++ nl ++ nl in
  let sb := sb ++ "Review the following commit: " ++ shortSHA sha ++ nl in
  Success sb.

(** [buildRangePrompt] constructs a prompt for a commit range. *)
Definition buildRangePrompt (b : Builder) (repoPath rangeRef : string)
           (repoID contextCount : Z) : result string :=
  let sb := "" in
  let sb := sb ++ SystemPromptRange in
  let sb := sb ++ nl in
  let sb :=
    match db b with
    | Some db =>
        if contextCount >? 0 then
          match GetRangeStart repoPath rangeRef with
          | Success startSHA =>
              match getPreviousReviewContexts db repoPath startSHA
                      contextCount with
              | Success contexts =>
                  if llen contexts >? 0 then writePreviousReviews sb contexts
                  else sb
              | Failure _ => sb
              end
          | Failure _ => sb
          end
        else sb
    | None => sb
    end in
  match GetRangeCommits repoPath rangeRef with
  | Failure err => Failure ("get range commits: " ++ err)
  | Success commits =>
      let sb := sb ++ "## Commit Range" ++ nl ++ nl in
      let sb :=
        sb ++ "Reviewing " ++ itoa (llen commits) ++ " commits:" ++ nl ++ nl in
      let sb :=
        fold_left
          (fun sb sha =>
             match GetCommitSubject repoPath sha with
             | Success subject =>
                 sb ++ "- " ++ shortSHA sha ++ " " ++ subject ++ nl
             | Failure _ => sb ++ "- " ++ shortSHA sha ++ nl
             end)
          commits sb in
      let sb := sb ++ nl in
      Success sb
  end.

(** [Build] constructs a review prompt for a commit or range with context
    from previous reviews. *)
Definition Build (b : Builder) (repoPath gitRef : string)
           (repoID contextCount : Z) : result string :=
  if IsRange gitRef then buildRangePrompt b repoPath gitRef repoID contextCount
  else buildSinglePrompt b repoPath gitRef repoID contextCount.

(** [BuildSimple] constructs a simpler prompt without database context. *)
Definition BuildSimple (repoPath sha : string) : result string :=
  let b := {| db := None |} in
  Build b repoPath sha 0 0.

End Prompt.

End prompt.

Import prompt.

(** The context [getPreviousReviewContexts] builds for one parent commit:
    the review the database has for it, none when the lookup fails. *)
Definition contextOf (db : DB) (parentSHA : string) : ReviewContext :=
  {| SHA := parentSHA;
     CtxReview := match db parentSHA with
                  | Success review => review
                  | Failure _ => None
                  end |}.

(** The previous-reviews section for a list of contexts, newest first as
    git lists parents: the header, then one section per context, oldest
    first. *)
Definition previousReviews (contexts : list ReviewContext) : string :=
  PreviousReviewsHeader ++ nl ++ concat (map reviewSection (rev contexts)).

(** The line [buildRangePrompt] writes for one commit of the range. *)
Definition commitLine {G : Git} (repoPath sha : string) : string :=
  match GetCommitSubject repoPath sha with
  | Success subject => "- " ++ shortSHA sha ++ " " ++ subject ++ nl
  | Failure _ => "- " ++ shortSHA sha ++ nl
  end.

(** A repository of three commits, the oldest of which has no readable
    subject, whose history cannot be walked past the root, and a
    database that holds a review for one commit only. *)
Definition sampleGit : Git :=
  {| IsRange := fun ref => String.eqb ref "aaaaaaa1..ccccccc3";
     GetRangeStart := fun _ _ => Success "aaaaaaa1000";
     GetRangeCommits := fun _ ref =>
       if String.eqb ref "aaaaaaa1..ccccccc3"
       then Success ["bbbbbbb2000"; "ccccccc3000"]
       else Failure "bad revision";
     GetCommitSubject := fun _ sha =>
       if String.eqb sha "bbbbbbb2000" then Success "Fix the parser"
       else Failure "unreadable";
     GetParentCommits := fun _ sha _ =>
       if String.eqb sha "ccccccc3000"
       then Success ["bbbbbbb2000"; "aaaaaaa1000"]
       else Failure "no parents" |}.

Definition sampleDB : DB :=
  fun sha =>
    if String.eqb sha "aaaaaaa1000"
    then Success (Some {| ReviewAgent := "codex"; Output := "Looks fine.";
                          Job := None |})
    else Failure "sql: no rows".

(** A git whose every reference is a range that cannot be listed. *)
Definition brokenGit : Git :=
  {| IsRange := fun _ => true;
     GetRangeStart := fun _ _ => Failure "bad revision";
     GetRangeCommits := fun _ _ => Failure "bad revision";
     GetCommitSubject := fun _ _ => Failure "bad object";
     GetParentCommits := fun _ _ _ => Failure "bad revision" |}.

(** The previous-reviews section [buildSinglePrompt] and
    [buildRangePrompt] write for the commit [sha]: present when a
    database is attached, the context count is positive and git lists at
    least one parent of [sha]; empty otherwise. *)
Definition previousSection {G : Git} (b : Builder) (repoPath sha : string)
           (contextCount : Z) : string :=
  match db b with
  | Some d =>
      if contextCount >? 0 then
        match GetParentCommits repoPath sha contextCount with
        | Success (p :: ps) => previousReviews (map (contextOf d) (p :: ps))
        | _ => ""
        end
      else ""
  | None => ""
  end.

(** The commit-range section of [buildRangePrompt]. *)
Definition rangeSection {G : Git} (repoPath : string) (commits : list string)
  : string :=
  "## Commit Range" ++ nl ++ nl
    ++ "Reviewing " ++ itoa (llen commits) ++ " commits:" ++ nl ++ nl
    ++ concat (map (commitLine repoPath) commits) ++ nl.

(** The current-commit section of [buildSinglePrompt]. *)
Definition currentCommitSection (sha : string) : string :=
  "## Current Commit" ++ nl ++ nl
    ++ "Review the following commit: " ++ shortSHA sha ++ nl.

(** The previous-reviews section of a range prompt: that of the commit
    the range starts from, nothing when git cannot tell it. *)
Definition rangePreviousSection {G : Git} (b : Builder)
           (repoPath rangeRef : string) (contextCount : Z) : string :=
  match GetRangeStart repoPath rangeRef with
  | Success startSHA => previousSection b repoPath startSHA contextCount
  | Failure _ => ""
  end.
(* ================================================================== *)
(** ** The parts of the queue frame *)

(** [l[start:end]], empty when [end <= start]. *)
Definition sliceOf {A : Type} (l : list A) (start end_ : Z) : list A :=
  firstn (Z.to_nat (end_ - start)) (skipn (Z.to_nat start) l).

(** The status summary under the title of the queue screen. *)
Definition queueStatusLine (m : Model) : string :=
  "Workers: " ++ itoa (ActiveWorkers (status m)) ++ "/"
    ++ itoa (MaxWorkers (status m))
    ++ " | Queued: " ++ itoa (QueuedJobs (status m))
    ++ " | Running: " ++ itoa (RunningJobs (status m))
    ++ " | Done: " ++ itoa (CompletedJobs (status m))
    ++ " | Failed: " ++ itoa (FailedJobs (status m))
    ++ " | Size: " ++ itoa (width m) ++ "x" ++ itoa (height m).

(** The column header of the job table. *)
Definition queueHeader {T : Terminal} : string :=
  "  " ++ padRunes 4 "ID" ++ " " ++ padRunes 17 "Ref" ++ " "
    ++ padRunes 15 "Repo" ++ " " ++ padRunes 12 "Agent" ++ " "
    ++ padRunes 8 "Status" ++ " " ++ "Time".

(** The text [renderJobLine] returns for a job. *)
Definition jobLine {T : Terminal} (job : ReviewJob) : string :=
  padInt 4 (ID job) ++ " " ++ padRunes 17 (refColumn job) ++ " "
    ++ padRunes 15 (repoColumn job) ++ " "
    ++ padRunes 12 (agentColumn job) ++ " "
    ++ statusColumn job ++ " " ++ elapsedColumn job.

(** The row of the job at index [i]: marked and styled when [i] is the
    selection, indented otherwise. *)
Definition jobRow {T : Terminal} (m : Model) (i : Z) (job : ReviewJob)
  : string :=
  (if i =? selectedIdx m then selectedStyle ("> " ++ jobLine job)
   else "  " ++ jobLine job) ++ nl.

(** The rows of consecutive jobs, the first of them at index [i]. *)
Fixpoint jobRows {T : Terminal} (m : Model) (i : Z) (js : list ReviewJob)
  : string :=
  match js with
  | [] => ""
  | job :: rest => jobRow m i job ++ jobRows m (i + 1) rest
  end.

(** A job list whose status strings have an [int] length. *)
Definition statuses_fit (js : list ReviewJob) : Prop :=
  Forall (fun job => len (Status job) <= int_max) js.

(** The event loop with the commands it hands to the runtime: the
    messages of [msgs] folded into the model, and the commands the
    transitions returned, in order. *)
Fixpoint runCmd (m : Model) (msgs : list Msg) : go (Model * Cmd) :=
  match msgs with
  | [] => Ok (m, [])
  | msg :: rest =>
      r <- Update m msg ;;
      r' <- runCmd (fst r) rest ;;
      Ok (fst r', (snd r ++ snd r')%list)
  end.

(** Job 7 arrives and the terminal shrinks to 3 columns. *)
Definition shrinkToThree : list Msg := [jobsMsg [job7]; WindowSizeMsg 3 24].

(* ================================================================== *)
(** * Properties *)

(** ** Machine integers *)

Arguments wrap : simpl never.
Arguments int_add : simpl never.
Arguments int_sub : simpl never.
Arguments int_div : simpl never.

Lemma wrap_small (z : Z) : fits_int z -> wrap z = z.
Proof.
  unfold fits_int, wrap, int_min, int_max. intros H.
  rewrite Z.mod_small by lia. lia.
Qed.

Lemma wrap_fits (z : Z) : fits_int (wrap z).
Proof.
  unfold fits_int, wrap, int_min, int_max.
  pose proof (Z.mod_pos_bound (z + 2 ^ 63) (2 ^ 64) ltac:(lia)). lia.
Qed.

Lemma int_add_small (a b : Z) : fits_int (a + b) -> int_add a b = a + b.
Proof. apply wrap_small. Qed.

Lemma int_sub_small (a b : Z) : fits_int (a - b) -> int_sub a b = a - b.
Proof. apply wrap_small. Qed.

Lemma int_div2_small (a : Z) : 0 <= a -> fits_int a -> int_div a 2 = a / 2.
Proof.
  intros H0 H. unfold int_div.
  rewrite Z.quot_div_nonneg by lia.
  apply wrap_small. unfold fits_int, int_min, int_max in *.
  pose proof (Z.div_pos a 2 H0 ltac:(lia)).
  pose proof (Z.div_le_upper_bound a 2 a ltac:(lia) ltac:(lia)). lia.
Qed.

(** Arithmetic that does not leave the range of [int]. *)
Ltac zlia := unfold fits_int, int_min, int_max in *; lia.

Ltac int_small := rewrite ?int_add_small, ?int_sub_small by zlia.

(** ** The reducer: fetch results *)

(** C8.  A fetch failure only records the error.  [Update] on [errMsg e]
    issues no command and yields a model whose stored error is [e],
    whatever it was before; the job list, the daemon status, the active
    view (and the review it holds), the selected index, the scroll offset,
    the terminal dimensions and the server address are those of the
    model before. *)
Theorem Update_errMsg_only_sets_err :
  forall (m : Model) (e : string),
  exists m' : Model,
    Update m (errMsg e) = Ok (m', [])
    /\ err m' = Some e
    /\ jobs m' = jobs m
    /\ status m' = status m
    /\ currentView m' = currentView m
    /\ currentReview m' = currentReview m
    /\ selectedIdx m' = selectedIdx m
    /\ reviewScroll m' = reviewScroll m
    /\ width m' = width m
    /\ height m' = height m
    /\ serverAddr m' = serverAddr m.
Proof.
  intros m e. exists (set_err m (Some e)).
  repeat split.
Qed.

(** C9.  A delivered review is shown at once.  [Update] on [reviewMsg r]
    is one transition to a model whose view is [viewReview], whose held
    review is exactly [r] and whose scroll offset is 0; it issues no
    command and leaves every other field alone. *)
Theorem Update_reviewMsg_enters_review :
  forall (m : Model) (r : option Review),
  exists m' : Model,
    Update m (reviewMsg r) = Ok (m', [])
    /\ currentView m' = viewReview
    /\ currentReview m' = r
    /\ reviewScroll m' = 0
    /\ jobs m' = jobs m
    /\ status m' = status m
    /\ selectedIdx m' = selectedIdx m
    /\ width m' = width m
    /\ height m' = height m
    /\ err m' = err m.
Proof.
  intros m r. eexists. split; [reflexivity|]. repeat split.
Qed.

(** ** Rendering and the stored error *)

(** C2.  The frame does not depend on the stored error: two models that
    agree on every field but [err] render the same, through [View] and
    through each of the two screen renderers. *)
Theorem View_ignores_err :
  forall (T : Terminal) (m : Model) (e1 e2 : option string),
    View (set_err m e1) = View (set_err m e2)
    /\ renderQueueView (set_err m e1) = renderQueueView (set_err m e2)
    /\ renderReviewView (set_err m e1) = renderReviewView (set_err m e2).
Proof.
  intros T m e1 e2. repeat split.
Qed.

(** ** Opening a review from the queue *)

Lemma index_Ok_llen {A : Type} (l : list A) (i : Z) (a : A) :
  index l i = Ok a -> 0 <= i < llen l.
Proof.
  unfold index. intros H.
  destruct (i <? 0) eqn:E1; [discriminate|].
  destruct (i >=? llen l) eqn:E2; [discriminate|]. lia.
Qed.

(** C4.  In the queue view, [enter] on a selected job whose status is
    ["failed"] yields, with no command issued, the review view holding a
    review built from the job (its agent, the output ["Job failed:\n\n"]
    followed by the job's error text, and the job itself) with the scroll
    offset at 0; on a selected job whose status is neither ["done"] nor
    ["failed"] it changes nothing and issues no command.  For job 7 with
    error ["panic: nil pointer"] as the only entry the output is
    ["Job failed:\n\npanic: nil pointer"]. *)
Theorem Update_enter_failed_job :
  forall (m : Model) (job : ReviewJob),
    currentView m = viewQueue ->
    index (jobs m) (selectedIdx m) = Ok job ->
    (Status job = "failed" ->
     exists m' : Model,
       Update m (KeyMsg "enter") = Ok (m', [])
       /\ currentView m' = viewReview
       /\ currentReview m'
          = Some {| ReviewAgent := Agent job;
                    Output := "Job failed:" ++ nl ++ nl ++ Error job;
                    Job := Some job |}
       /\ reviewScroll m' = 0
       /\ jobs m' = jobs m /\ status m' = status m
       /\ selectedIdx m' = selectedIdx m
       /\ width m' = width m /\ height m' = height m /\ err m' = err m)
    /\ (Status job <> "done" -> Status job <> "failed" ->
        Update m (KeyMsg "enter") = Ok (m, []))
    /\ (m = queueOfJob7 ->
        exists m' : Model,
          Update m (KeyMsg "enter") = Ok (m', [])
          /\ currentView m' = viewReview
          /\ option_map Output (currentReview m')
             = Some ("Job failed:" ++ nl ++ nl ++ "panic: nil pointer")
          /\ reviewScroll m' = 0).
Proof.
  intros m job Hview Hidx.
  pose proof (index_Ok_llen _ _ _ Hidx) as Hlen.
  assert (Hgt : (llen (jobs m) >? 0) = true) by lia.
  assert (Hfailed :
    Status job = "failed" ->
    Update m (KeyMsg "enter")
    = Ok (set_reviewScroll
            (set_currentView
               (set_currentReview m
                  (Some {| ReviewAgent := Agent job;
                           Output := "Job failed:" ++ nl ++ nl ++ Error job;
                           Job := Some job |}))
               viewReview) 0, [])).
  { intros Hst. unfold Update. cbn [key_in existsb String.eqb Ascii.eqb Bool.eqb orb].
    rewrite Hview, Hgt. cbn [view_eqb andb].
    rewrite Hidx. cbn [bind]. rewrite Hst. reflexivity. }
  split; [|split].
  - intros Hst. eexists. split; [apply Hfailed, Hst|]. repeat split.
  - intros Hnd Hnf. unfold Update.
    cbn [key_in existsb String.eqb Ascii.eqb Bool.eqb orb].
    rewrite Hview, Hgt. cbn [view_eqb andb].
    rewrite Hidx. cbn [bind].
    destruct (String.eqb_spec (Status job) JobStatusDone) as [E|_];
      [contradiction|].
    destruct (String.eqb_spec (Status job) JobStatusFailed) as [E|_];
      [contradiction|]. reflexivity.
  - intros ->. eexists. split; [reflexivity|]. repeat split.
Qed.

Lemma Update_enter_failed_job_witness :
  (exists m' : Model,
     Update queueOfJob7 (KeyMsg "enter") = Ok (m', [])
     /\ currentView m' = viewReview
     /\ currentReview m'
        = Some {| ReviewAgent := Agent job7;
                  Output := "Job failed:" ++ nl ++ nl ++ Error job7;
                  Job := Some job7 |}
     /\ reviewScroll m' = 0
     /\ jobs m' = jobs queueOfJob7 /\ status m' = status queueOfJob7
     /\ selectedIdx m' = selectedIdx queueOfJob7
     /\ width m' = width queueOfJob7 /\ height m' = height queueOfJob7
     /\ err m' = err queueOfJob7)
  /\ (exists m' : Model,
        Update queueOfJob7 (KeyMsg "enter") = Ok (m', [])
        /\ currentView m' = viewReview
        /\ option_map Output (currentReview m')
           = Some ("Job failed:" ++ nl ++ nl ++ "panic: nil pointer")
        /\ reviewScroll m' = 0)
  /\ Update queueOfJob8 (KeyMsg "enter") = Ok (queueOfJob8, []).
Proof.
  pose proof (Update_enter_failed_job queueOfJob7 job7 eq_refl eq_refl)
    as [Hfailed [_ Hscenario]].
  pose proof (Update_enter_failed_job queueOfJob8 job8 eq_refl eq_refl)
    as [_ [Hnoop _]].
  split; [exact (Hfailed eq_refl) | split; [exact (Hscenario eq_refl)|]].
  apply Hnoop; discriminate.
Defined.

(** ** The row loops of the renderers *)

(** The fuel [Z.to_nat (end - start)] the renderers give their row loop
    is all the loop can use: with more fuel it does the same. *)
Lemma forRange_fuel (body : Z -> go string) (end_ : Z) :
  end_ <= int_max ->
  forall (fuel : nat) (i : Z) (b : string),
    int_min <= i ->
    (Z.to_nat (end_ - i) <= fuel)%nat ->
    forRange fuel i end_ body b
    = forRange (Z.to_nat (end_ - i)) i end_ body b.
Proof.
  intros Hend. induction fuel as [|k IH]; intros i b Hi Hfuel.
  - replace (Z.to_nat (end_ - i)) with O by lia. reflexivity.
  - cbn [forRange]. destruct (i <? end_) eqn:E.
    + replace (Z.to_nat (end_ - i)) with (S (Z.to_nat (end_ - (i + 1))))
        by lia.
      cbn [forRange]. rewrite E.
      rewrite int_add_small by zlia.
      destruct (body i) as [s|p]; cbn [bind]; [|reflexivity].
      apply IH; [zlia | lia].
    + replace (Z.to_nat (end_ - i)) with O by lia. reflexivity.
Qed.

(** ** Rendering never dereferences a nil review *)

Lemma no_nil_deref_Ok {A : Type} (a : A) : no_nil_deref (Ok a).
Proof. discriminate. Qed.

Lemma no_nil_deref_bind {A B : Type} (c : go A) (k : A -> go B) :
  no_nil_deref c -> (forall a, no_nil_deref (k a)) -> no_nil_deref (bind c k).
Proof.
  unfold no_nil_deref. intros Hc Hk.
  destruct c as [a|p]; cbn; [apply Hk | congruence].
Qed.

Lemma no_nil_deref_index {A : Type} (l : list A) (i : Z) :
  no_nil_deref (index l i).
Proof.
  unfold index, no_nil_deref.
  destruct ((i <? 0) || (i >=? llen l)); [discriminate|].
  destruct (nth_error l (Z.to_nat i)); discriminate.
Qed.

Lemma no_nil_deref_Repeat (s : string) (count : Z) :
  no_nil_deref (Repeat s count).
Proof.
  unfold Repeat, no_nil_deref. destruct (count <? 0); discriminate.
Qed.

Lemma no_nil_deref_forRange (body : Z -> go string) :
  (forall i, no_nil_deref (body i)) ->
  forall (fuel : nat) (i end_ : Z) (b : string),
    no_nil_deref (forRange fuel i end_ body b).
Proof.
  intros Hbody fuel. induction fuel as [|k IH]; intros i end_ b; cbn.
  - apply no_nil_deref_Ok.
  - destruct (i <? end_); [|apply no_nil_deref_Ok].
    apply no_nil_deref_bind; [apply Hbody | intros s; apply IH].
Qed.

Create HintDb nonil.
#[local] Hint Resolve no_nil_deref_Ok no_nil_deref_index
  no_nil_deref_Repeat : nonil.

Section RenderSafety.

Context {T : Terminal}.

Lemma no_nil_deref_renderJobLine (job : ReviewJob) :
  no_nil_deref (renderJobLine job).
Proof.
  unfold renderJobLine.
  apply no_nil_deref_bind; [|auto with nonil].
  destruct (int_sub 8 (len (Status job)) >? 0); [|auto with nonil].
  apply no_nil_deref_bind; auto with nonil.
Qed.

Lemma no_nil_deref_renderQueueView (m : Model) :
  no_nil_deref (renderQueueView m).
Proof.
  unfold renderQueueView.
  apply no_nil_deref_bind; [|auto with nonil].
  destruct (llen (jobs m) =? 0); [auto with nonil|].
  apply no_nil_deref_bind; [auto with nonil|]. intros rule.
  destruct (queueWindow _ _ _) as [start end_].
  apply no_nil_deref_bind.
  - apply no_nil_deref_forRange. intros i.
    apply no_nil_deref_bind; [auto with nonil|]. intros job.
    apply no_nil_deref_bind; [apply no_nil_deref_renderJobLine|].
    auto with nonil.
  - intros b. destruct (_ >? _); auto with nonil.
Qed.

Lemma no_nil_deref_renderReviewView (m : Model) (r : Review) :
  currentReview m = Some r -> no_nil_deref (renderReviewView m).
Proof.
  intros Hr. unfold renderReviewView. rewrite Hr.
  apply no_nil_deref_bind; [|auto with nonil].
  apply no_nil_deref_forRange. intros i.
  apply no_nil_deref_bind; auto with nonil.
Qed.

End RenderSafety.

(** C10.  [View] renders the queue screen whenever the review screen is
    selected but no review is held; it calls [renderReviewView] only on a
    model that holds a review; and no model makes it end in a nil
    dereference. *)
Theorem View_nil_review_renders_queue :
  forall (T : Terminal) (m : Model),
    (currentView m = viewReview -> currentReview m = None ->
     View m = renderQueueView m)
    /\ (View m = renderQueueView m
        \/ (currentView m = viewReview
            /\ exists r : Review,
                 currentReview m = Some r /\ View m = renderReviewView m))
    /\ View m <> Panic NilDereference.
Proof.
  intros T m. unfold View.
  destruct (currentView m) eqn:Hv; destruct (currentReview m) as [r|] eqn:Hr;
    cbn [view_eqb not_nil andb].
  - split; [discriminate|]. split; [now left|].
    apply no_nil_deref_renderQueueView.
  - split; [discriminate|]. split; [now left|].
    apply no_nil_deref_renderQueueView.
  - split; [discriminate|]. split.
    + right. split; [reflexivity|]. exists r. split; reflexivity.
    + apply (no_nil_deref_renderReviewView m r Hr).
  - split; [reflexivity|]. split; [now left|].
    apply no_nil_deref_renderQueueView.
Qed.

Lemma View_nil_review_renders_queue_witness :
  @View plainTerminal reviewWithoutPayload
  = @renderQueueView plainTerminal reviewWithoutPayload.
Proof.
  exact (proj1 (View_nil_review_renders_queue plainTerminal
                  reviewWithoutPayload) eq_refl eq_refl).
Defined.

(** ** The list windower *)

Lemma visibleJobs_bounds (height : Z) :
  3 <= visibleJobs height <= int_max.
Proof.
  unfold visibleJobs.
  pose proof (wrap_fits (height - 9)) as [_ Hmax]. fold (int_sub height 9) in Hmax.
  destruct (int_sub height 9 <? 3) eqn:E; unfold int_max in *; lia.
Qed.

Lemma visibleJobs_small (height : Z) :
  fits_int height -> 12 <= height -> visibleJobs height = height - 9.
Proof.
  intros Hfit H12. unfold visibleJobs.
  rewrite int_sub_small by (unfold fits_int, int_min, int_max in *; lia).
  destruct (height - 9 <? 3) eqn:E; lia.
Qed.

(** C6.  With [v] the viewport capacity [visibleJobs height] (at least
    3), [n] the number of jobs and [s] the selection: when [n <= v] the
    window is the whole list, [(0, n)]; when [n > v] (and [n + v] is
    still an [int]) and [0 <= s < n], the window [(start, end)] has
    [start = s - v/2] raised to 0 and lowered to [n - v], its length
    [end - start] is exactly [v], it lies inside [0, n], and it contains
    the selection.  For 100 jobs, capacity 10 and selection 50 the window
    is [(45, 55)] and the footer reads ["[showing 46-55 of 100]"]. *)
Theorem queueWindow_spec :
  forall (height n s : Z),
    let v := visibleJobs height in
    3 <= v
    /\ (n <= v -> queueWindow n v s = (0, n))
    /\ (v < n -> n + v <= int_max -> 0 <= s < n ->
        let '(start, end_) := queueWindow n v s in
        start = Z.min (Z.max 0 (s - v / 2)) (n - v)
        /\ end_ = start + v
        /\ 0 <= start /\ end_ <= n
        /\ start <= s < end_)
    /\ (height = 19 -> n = 100 -> s = 50 ->
        v = 10
        /\ queueWindow n v s = (45, 55)
        /\ queueScrollInfo 45 55 n = "[showing 46-55 of 100]").
Proof.
  intros height n s v.
  pose proof (visibleJobs_bounds height) as [Hv3 Hvmax]. fold v in Hv3, Hvmax.
  split; [exact Hv3|]. split; [|split].
  - intros Hle. unfold queueWindow.
    destruct (n >? v) eqn:E; [lia | reflexivity].
  - intros Hlt Hsum Hs. unfold queueWindow.
    destruct (n >? v) eqn:E; [|lia].
    assert (Hfit : fits_int v) by (unfold fits_int, int_min, int_max in *; lia).
    rewrite (int_div2_small v) by (auto; lia).
    pose proof (Z.div_pos v 2 ltac:(lia) ltac:(lia)) as Hd0.
    assert (Hd1 : v / 2 < v) by (apply Z.div_lt; lia).
    rewrite (int_sub_small s) by (unfold fits_int, int_min, int_max in *; lia).
    set (start1 := if s - v / 2 <? 0 then 0 else s - v / 2).
    assert (Hs1 : start1 = Z.max 0 (s - v / 2))
      by (unfold start1; destruct (s - v / 2 <? 0) eqn:E1; lia).
    rewrite (int_add_small start1)
      by (unfold fits_int, int_min, int_max in *; lia).
    destruct (start1 + v >? n) eqn:E2.
    + rewrite int_sub_small by (unfold fits_int, int_min, int_max in *; lia).
      lia.
    + lia.
  - intros -> -> ->. subst v. repeat split.
Qed.

Lemma queueWindow_spec_witness :
  queueWindow 2 (visibleJobs 0) 1 = (0, 2)
  /\ (let '(start, end_) := queueWindow 100 (visibleJobs 19) 99 in
      start = Z.min (Z.max 0 (99 - visibleJobs 19 / 2)) (100 - visibleJobs 19)
      /\ end_ = start + visibleJobs 19
      /\ 0 <= start /\ end_ <= 100
      /\ start <= 99 < end_)
  /\ (visibleJobs 19 = 10
      /\ queueWindow 100 (visibleJobs 19) 50 = (45, 55)
      /\ queueScrollInfo 45 55 100 = "[showing 46-55 of 100]").
Proof.
  split; [|split].
  - apply (queueWindow_spec 0 2 1). vm_compute. discriminate.
  - apply (queueWindow_spec 19 100 99).
    + vm_compute. reflexivity.
    + vm_compute. discriminate.
    + lia.
  - apply (queueWindow_spec 19 100 50); reflexivity.
Defined.

(** The frame of the scenario ends with the footer and the help line. *)
Lemma renderQueueView_footer_example :
  match @renderQueueView plainTerminal hundredJobs with
  | Ok frame =>
      HasSuffix frame
        ("[showing 46-55 of 100]" ++ nl
           ++ "up/down: navigate | enter: view review | q: quit") = true
  | Panic _ => False
  end.
Proof. vm_compute. reflexivity. Qed.

(** ** The selection invariant *)

Lemma NewModel_selection_ok (addr : string) :
  selection_ok (NewModel addr) /\ jobs_fit (NewModel addr).
Proof.
  unfold selection_ok, jobs_fit, int_max. cbn. lia.
Qed.

(** Every transition keeps the selection inside the job list, and does
    not panic from a state where it is. *)
Lemma Update_keeps_selection (m : Model) (msg : Msg) :
  jobs_fit m -> Msg_wf msg -> selection_ok m ->
  exists (m' : Model) (cmd : Cmd),
    Update m msg = Ok (m', cmd) /\ selection_ok m' /\ jobs_fit m'.
Proof.
  unfold jobs_fit, selection_ok. intros Hfit Hwf Hsel.
  pose proof (Nat2Z.is_nonneg (List.length (jobs m))) as Hn0.
  fold (llen (jobs m)) in Hn0.
  destruct msg as [key|w h| |js|s|r|e|]; cbn [Update].
  - (* a key *)
    destruct (key_in key ["ctrl+c"; "q"]).
    { destruct (view_eqb (currentView m) viewReview);
        eexists; eexists; (split; [reflexivity|]); cbn; auto. }
    destruct (key_in key ["up"; "k"]).
    { destruct (view_eqb (currentView m) viewQueue).
      - destruct (selectedIdx m >? 0) eqn:E;
          eexists; eexists; (split; [reflexivity|]); cbn; auto.
        int_small. zlia.
      - destruct (reviewScroll m >? 0);
          eexists; eexists; (split; [reflexivity|]); cbn; auto. }
    destruct (key_in key ["down"; "j"]).
    { destruct (view_eqb (currentView m) viewQueue).
      - revert Hsel. int_small. intros Hsel.
        destruct (selectedIdx m <? llen (jobs m) - 1) eqn:E;
          eexists; eexists; (split; [reflexivity|]); cbn; auto.
        int_small. zlia.
      - eexists; eexists; (split; [reflexivity|]); cbn; auto. }
    destruct (key_in key ["enter"]).
    { destruct (view_eqb (currentView m) viewQueue && (llen (jobs m) >? 0))
        eqn:E; [|eexists; eexists; (split; [reflexivity|]); cbn; auto].
      apply andb_prop in E as [_ E].
      unfold index.
      destruct ((selectedIdx m <? 0) || (selectedIdx m >=? llen (jobs m)))
        eqn:E1; [exfalso; zlia|].
      destruct (nth_error (jobs m) (Z.to_nat (selectedIdx m))) as [job|] eqn:E2.
      - cbn [bind].
        destruct (String.eqb (Status job) JobStatusDone);
          [eexists; eexists; (split; [reflexivity|]); cbn; auto|].
        destruct (String.eqb (Status job) JobStatusFailed);
          eexists; eexists; (split; [reflexivity|]); cbn; auto.
      - exfalso. apply nth_error_None in E2. unfold llen in *. zlia. }
    destruct (key_in key ["esc"]).
    { destruct (view_eqb (currentView m) viewReview);
        eexists; eexists; (split; [reflexivity|]); cbn; auto. }
    eexists; eexists; (split; [reflexivity|]); cbn; auto.
  - eexists; eexists; (split; [reflexivity|]); cbn; auto.
  - eexists; eexists; (split; [reflexivity|]); cbn; auto.
  - (* a fetched job list *)
    cbn in Hwf.
    pose proof (Nat2Z.is_nonneg (List.length js)) as Hjs0.
    fold (llen js) in Hjs0.
    cbn [jobs set_jobs selectedIdx].
    destruct (selectedIdx m >=? llen js) eqn:E;
      eexists; eexists; (split; [reflexivity|]); cbn [jobs set_jobs
        set_selectedIdx selectedIdx]; (split; [|exact Hwf]).
    + int_small. zlia.
    + destruct (Z.eq_dec (llen (jobs m)) 0); zlia.
  - eexists; eexists; (split; [reflexivity|]); cbn; auto.
  - eexists; eexists; (split; [reflexivity|]); cbn; auto.
  - eexists; eexists; (split; [reflexivity|]); cbn; auto.
  - eexists; eexists; (split; [reflexivity|]); cbn; auto.
Qed.

(** The event loop never panics and keeps the selection in the list. *)
Lemma run_keeps_selection (msgs : list Msg) :
  Forall Msg_wf msgs ->
  forall m : Model,
    jobs_fit m -> selection_ok m ->
    exists m' : Model,
      run m msgs = Ok m' /\ selection_ok m' /\ jobs_fit m'.
Proof.
  induction 1 as [|msg rest Hmsg _ IH]; intros m Hfit Hsel.
  - exists m. cbn. auto.
  - destruct (Update_keeps_selection m msg Hfit Hmsg Hsel)
      as (m1 & cmd & HU & Hsel1 & Hfit1).
    destruct (IH m1 Hfit1 Hsel1) as (m' & Hrun & Hsel' & Hfit').
    exists m'. cbn [run]. rewrite HU. cbn. auto.
Qed.

(** C3.  From a model whose selection is in the job list, every message
    leads (without panic) to a model whose selection is in the job list:
    an index of the list when it is not empty, 0 when it is.  (Slice
    lengths and the [int] fields of messages are values of [int]:
    [jobs_fit], [Msg_wf].)  A fetched
    list of [k' < k] jobs arriving while the last of [k] jobs is selected
    leaves the selection at [max 0 (k' - 1)]. *)
Theorem Update_preserves_selection_invariant :
  forall (m : Model) (msg : Msg),
    jobs_fit m -> Msg_wf msg ->
    (selection_ok m ->
     exists (m' : Model) (cmd : Cmd),
       Update m msg = Ok (m', cmd) /\ selection_ok m')
    /\ (forall (js : list ReviewJob) (k k' : Z),
          msg = jobsMsg js ->
          llen (jobs m) = k -> selectedIdx m = k - 1 ->
          llen js = k' -> k' < k ->
          exists m' : Model,
            Update m msg = Ok (m', [])
            /\ jobs m' = js
            /\ selectedIdx m' = Z.max 0 (k' - 1)).
Proof.
  intros m msg Hfit Hwf. split.
  - intros Hsel.
    destruct (Update_keeps_selection m msg Hfit Hwf Hsel)
      as (m' & cmd & HU & Hsel' & _).
    exists m', cmd. auto.
  - intros js k k' -> Hk Hs Hk' Hlt. cbn [Update jobs set_jobs selectedIdx].
    unfold jobs_fit in Hfit.
    pose proof (Nat2Z.is_nonneg (List.length js)) as Hjs0.
    fold (llen js) in Hjs0.
    destruct (selectedIdx m >=? llen js) eqn:E; [|zlia].
    eexists. split; [reflexivity|]. cbn. split; [reflexivity|].
    int_small. zlia.
Qed.

Lemma Update_preserves_selection_invariant_witness :
  (exists (m' : Model) (cmd : Cmd),
     Update queueOfJob7 (KeyMsg "down") = Ok (m', cmd) /\ selection_ok m')
  /\ (exists m' : Model,
        Update (set_selectedIdx (set_jobs (NewModel "") [job7; job8; job8]) 2)
               (jobsMsg [job8]) = Ok (m', [])
        /\ jobs m' = [job8]
        /\ selectedIdx m' = Z.max 0 (1 - 1)).
Proof.
  split.
  - apply (Update_preserves_selection_invariant queueOfJob7 (KeyMsg "down")).
    + vm_compute. discriminate.
    + exact I.
    + unfold selection_ok. cbn. lia.
  - apply (Update_preserves_selection_invariant
             (set_selectedIdx (set_jobs (NewModel "") [job7; job8; job8]) 2)
             (jobsMsg [job8])) with (k := 3).
    + vm_compute. discriminate.
    + vm_compute. discriminate.
    + reflexivity.
    + reflexivity.
    + reflexivity.
    + reflexivity.
    + lia.
Defined.

(** ** The scroll offset of the review screen *)

Ltac break_Update H :=
  repeat match type of H with
         | context [if ?c then _ else _] => destruct c eqn:?
         | context [bind ?c _] => destruct c eqn:?; cbn [bind] in H
         end.

(** One transition raises the stored scroll offset by at most one and
    never takes it below 0. *)
Lemma Update_scroll_step (m m' : Model) (msg : Msg) (cmd : Cmd) (k : Z) :
  Update m msg = Ok (m', cmd) ->
  0 <= reviewScroll m <= k -> k < int_max ->
  0 <= reviewScroll m' <= k + 1.
Proof.
  intros HU Hk Hmax.
  destruct msg as [key|w h| |js|s|r|e|]; cbn [Update] in HU;
    break_Update HU; try discriminate;
    injection HU as <- <-; cbn [reviewScroll set_reviewScroll set_selectedIdx
      set_currentView set_currentReview set_jobs set_status set_err set_width
      set_height backToQueue];
    int_small; zlia.
Qed.

Lemma run_scroll_bound (msgs : list Msg) :
  forall (m m' : Model) (k : Z),
    run m msgs = Ok m' ->
    0 <= reviewScroll m <= k -> k + llen msgs <= int_max ->
    0 <= reviewScroll m' <= k + llen msgs.
Proof.
  induction msgs as [|msg rest IH]; intros m m' k Hrun Hk Hmax.
  - cbn in Hrun. injection Hrun as <-. unfold llen. cbn. lia.
  - cbn [run] in Hrun.
    destruct (Update m msg) as [[m1 cmd]|p] eqn:HU; [|discriminate].
    cbn [bind fst] in Hrun.
    unfold llen in *. cbn [List.length] in *.
    rewrite Nat2Z.inj_succ in *.
    pose proof (Nat2Z.is_nonneg (List.length rest)).
    assert (H1 : 0 <= reviewScroll m1 <= k + 1)
      by (apply (Update_scroll_step m m1 msg cmd k HU Hk); zlia).
    pose proof (IH m1 m' (k + 1) Hrun H1 ltac:(lia)). lia.
Qed.

(** The renderer's first line is a line of the content whenever the
    stored offset is not negative. *)
Lemma reviewStart_in_content (scroll nlines : Z) :
  0 <= scroll -> 0 <= nlines -> nlines <= int_max ->
  0 <= reviewStart scroll nlines <= Z.max 0 (nlines - 1).
Proof.
  intros Hs Hn Hmax. unfold reviewStart.
  destruct (scroll >=? nlines) eqn:E; int_small; lia.
Qed.

(** C1, as the code has it.  In every model reached from the initial one
    by at most [int_max] messages the stored offset is not negative, and
    the first line the review renderer shows for it lies in
    [0, max 0 (totalWrappedLines - 1)].  In such a model, on the review
    screen, [down] and [j] add one to the stored scroll offset whatever
    the length of the content, and [up] and [k] take one off down to 0
    (the new offset is [max 0 (offset - 1)]); neither changes anything
    else nor issues a command. *)
Theorem reviewScroll_clamped_at_render :
  forall (addr : string) (msgs : list Msg),
    Forall Msg_wf msgs -> llen msgs <= int_max ->
    exists m : Model,
      run (NewModel addr) msgs = Ok m
      /\ 0 <= reviewScroll m
      /\ (forall r : Review,
            currentReview m = Some r ->
            totalWrappedLines m r <= int_max ->
            0 <= reviewStart (reviewScroll m) (totalWrappedLines m r)
              <= Z.max 0 (totalWrappedLines m r - 1))
      /\ (currentView m = viewReview ->
          Update m (KeyMsg "down")
          = Ok (set_reviewScroll m (int_add (reviewScroll m) 1), [])
          /\ Update m (KeyMsg "j")
             = Ok (set_reviewScroll m (int_add (reviewScroll m) 1), [])
          /\ (reviewScroll m < int_max ->
              int_add (reviewScroll m) 1 = reviewScroll m + 1)
          /\ Update m (KeyMsg "up")
             = Ok (set_reviewScroll m (Z.max 0 (reviewScroll m - 1)), [])
          /\ Update m (KeyMsg "k")
             = Ok (set_reviewScroll m (Z.max 0 (reviewScroll m - 1)), [])).
Proof.
  intros addr msgs Hwf Hlen.
  destruct (NewModel_selection_ok addr) as [Hsel Hfit].
  destruct (run_keeps_selection msgs Hwf (NewModel addr) Hfit Hsel)
    as (m & Hrun & _ & _).
  exists m. split; [exact Hrun|].
  pose proof (run_scroll_bound msgs (NewModel addr) m 0 Hrun
                ltac:(cbn; lia) ltac:(lia)) as [H0 Hle].
  split; [exact H0|]. split.
  - intros r Hr Htot. apply reviewStart_in_content; auto.
    unfold totalWrappedLines, llen. lia.
  - intros Hv.
    assert (Hup : forall key : string,
               In key ["up"; "k"] ->
               Update m (KeyMsg key)
               = Ok (set_reviewScroll m (Z.max 0 (reviewScroll m - 1)), [])).
    { intros key Hkey. cbn [In] in Hkey.
      destruct Hkey as [<-|[<-|[]]]; unfold Update;
        cbn [key_in existsb String.eqb Ascii.eqb Bool.eqb orb];
        rewrite Hv; cbn [view_eqb];
        (destruct (reviewScroll m >? 0) eqn:E;
         [rewrite int_sub_small by zlia;
          replace (Z.max 0 (reviewScroll m - 1)) with (reviewScroll m - 1)
            by lia; reflexivity
         | replace (Z.max 0 (reviewScroll m - 1)) with (reviewScroll m)
             by lia; now destruct m]). }
    split; [|split; [|split; [|split]]].
    + unfold Update. cbn [key_in existsb String.eqb Ascii.eqb Bool.eqb orb].
      rewrite Hv. reflexivity.
    + unfold Update. cbn [key_in existsb String.eqb Ascii.eqb Bool.eqb orb].
      rewrite Hv. reflexivity.
    + intros Hlt. int_small. reflexivity.
    + apply Hup. cbn. auto.
    + apply Hup. cbn. auto.
Qed.

Lemma reviewScroll_clamped_at_render_witness :
  match run (NewModel "") scrollPastEnd with
  | Ok m =>
      reviewScroll m = 3
      /\ match currentReview m with
         | Some r =>
             totalWrappedLines m r = 3
             /\ 0 <= reviewStart (reviewScroll m) (totalWrappedLines m r)
                 <= Z.max 0 (totalWrappedLines m r - 1)
         | None => False
         end
      /\ Update m (KeyMsg "down") = Ok (set_reviewScroll m 4, [])
      /\ Update m (KeyMsg "up") = Ok (set_reviewScroll m 2, [])
      /\ Update m (KeyMsg "k") = Ok (set_reviewScroll m 2, [])
  | Panic _ => False
  end.
Proof.
  destruct (reviewScroll_clamped_at_render "" scrollPastEnd)
    as (m & Hrun & H0 & Hstart & Hkeys).
  - unfold scrollPastEnd. repeat constructor. vm_compute. discriminate.
  - vm_compute. discriminate.
  - rewrite Hrun. vm_compute in Hrun. injection Hrun as <-.
    split; [reflexivity|]. split.
    + cbn [currentReview]. split; [reflexivity|].
      apply Hstart; [reflexivity|]. vm_compute. discriminate.
    + destruct (Hkeys eq_refl) as (Hd & _ & _ & Hu & Hk).
      split; [exact Hd|]. split; [exact Hu | exact Hk].
Defined.

(** C1, as stated, fails: after opening the failed job 7 (three display
    lines) and pressing [down] three times the review view is active with
    the stored offset at 3, above the bound 2. *)
Lemma reviewScroll_exceeds_content :
  ~ (forall m : Model,
       run (NewModel "") scrollPastEnd = Ok m -> scroll_within_content m).
Proof.
  intros H.
  destruct (run (NewModel "") scrollPastEnd) as [m|p] eqn:Hrun;
    [|discriminate].
  specialize (H m eq_refl). vm_compute in Hrun. injection Hrun as <-.
  specialize (H eq_refl _ eq_refl). vm_compute in H.
  destruct H as [_ H]. apply H. reflexivity.
Qed.

(** ** Byte strings *)

Lemma append_nil_r (s : string) : s ++ "" = s.
Proof. induction s as [|c r IH]; cbn; [reflexivity | now rewrite IH]. Qed.

Lemma append_assoc (a b c : string) : (a ++ b) ++ c = a ++ (b ++ c).
Proof. induction a as [|x r IH]; cbn; [reflexivity | now rewrite IH]. Qed.

Lemma length_zero (s : string) : String.length s = O -> s = "".
Proof. destruct s; [reflexivity | discriminate]. Qed.

Lemma take_drop (n : nat) (s : string) : take n s ++ drop n s = s.
Proof.
  revert s. induction n as [|k IH]; intros [|c r]; cbn; try reflexivity.
  now rewrite IH.
Qed.

Lemma length_drop (n : nat) (s : string) :
  String.length (drop n s) = (String.length s - n)%nat.
Proof.
  revert s. induction n as [|k IH]; intros [|c r]; cbn; try reflexivity.
  apply IH.
Qed.

Lemma length_take (n : nat) (s : string) :
  String.length (take n s) = Nat.min n (String.length s).
Proof.
  revert s. induction n as [|k IH]; intros [|c r]; cbn; try reflexivity.
  now rewrite IH.
Qed.

Lemma leadingSpaces_TrimLeft (s : string) :
  leadingSpaces s ++ TrimLeft s = s.
Proof.
  induction s as [|c r IH]; cbn; [reflexivity|].
  destruct (Ascii.eqb c space); cbn; [now rewrite IH | reflexivity].
Qed.

Lemma all_spaces_leadingSpaces (s : string) :
  all_spaces (leadingSpaces s) = true.
Proof.
  induction s as [|c r IH]; cbn; [reflexivity|].
  destruct (Ascii.eqb c space) eqn:E; cbn; [now rewrite E | reflexivity].
Qed.

Lemma length_TrimLeft (s : string) :
  (String.length (TrimLeft s) <= String.length s)%nat.
Proof.
  induction s as [|c r IH]; cbn; [lia|].
  destruct (Ascii.eqb c space); cbn; lia.
Qed.

Lemma TrimLeft_unspaced (s : string) :
  TrimLeft s = "" \/ starts_unspaced (TrimLeft s).
Proof.
  induction s as [|c r IH]; cbn; [now left|].
  destruct (Ascii.eqb_spec c space) as [E|E]; [exact IH|].
  right. exact E.
Qed.

(** A soft break, and only a soft break, trims something. *)
Lemma leadingSpaces_nil_iff (s : string) :
  leadingSpaces s = "" <-> is_space_at s 0 = false.
Proof.
  destruct s as [|c r]; cbn; [tauto|].
  destruct (Ascii.eqb c space); split; intros H; try discriminate; reflexivity.
Qed.

Lemma ink_append (a b : string) : ink (a ++ b) = ink a ++ ink b.
Proof.
  induction a as [|c r IH]; cbn; [reflexivity|].
  destruct (is_ink c); cbn; now rewrite IH.
Qed.

Lemma ink_all_spaces (s : string) : all_spaces s = true -> ink s = "".
Proof.
  induction s as [|c r IH]; cbn; [reflexivity|].
  intros H. apply andb_prop in H as [Hc Hr].
  unfold is_ink. rewrite Hc. cbn. auto.
Qed.

Lemma Split_not_nil (s : string) : Split s <> [].
Proof.
  induction s as [|c r IH]; cbn [Split]; [discriminate|].
  destruct (Ascii.eqb c newline); [discriminate|].
  destruct (Split r); discriminate.
Qed.

(** [strings.Join(strings.Split(s, "\n"), "\n") == s] *)
Lemma Join_Split (s : string) : Join (Split s) = s.
Proof.
  induction s as [|c r IH]; cbn [Split]; [reflexivity|].
  pose proof (Split_not_nil r) as Hne.
  destruct (Ascii.eqb_spec c newline) as [->|_].
  - destruct (Split r) as [|h t] eqn:E; [contradiction|].
    change (Join ("" :: h :: t)) with ("" ++ nl ++ Join (h :: t)).
    rewrite IH. reflexivity.
  - destruct (Split r) as [|h t] eqn:E; [contradiction|].
    destruct t as [|h2 t]; cbn in *; now rewrite IH.
Qed.

Lemma fold_left_append {A B : Type} (f : B -> list A) (l : list B)
      (init : list A) :
  fold_left (fun result x => (result ++ f x)%list) l init
  = (init ++ flat_map f l)%list.
Proof.
  revert init. induction l as [|x l IH]; intros init; cbn.
  - now rewrite app_nil_r.
  - rewrite IH. now rewrite <- app_assoc.
Qed.

Lemma concat_app (a b : list string) :
  concat (a ++ b)%list = concat a ++ concat b.
Proof.
  induction a as [|x a IH]; cbn; [reflexivity|].
  rewrite IH. now rewrite append_assoc.
Qed.

Lemma is_space_at_range (s : string) (i : Z) :
  is_space_at s i = true -> 0 <= i < len s.
Proof.
  unfold is_space_at, byte_at, len.
  destruct (i <? 0) eqn:E; [discriminate|].
  destruct (String.get (Z.to_nat i) s) as [c|] eqn:G; [|discriminate].
  intros _. split; [lia|].
  assert (Hlt : (Z.to_nat i < String.length s)%nat).
  { clear E. revert G. generalize (Z.to_nat i) as n.
    induction s as [|x r IH]; intros n G; [discriminate|].
    destruct n as [|n]; cbn in *; [lia|].
    apply IH in G. lia. }
  lia.
Qed.

Lemma is_space_at_drop (s : string) (n : Z) :
  0 <= n -> is_space_at (slice_from s n) 0 = is_space_at s n.
Proof.
  intros Hn. unfold is_space_at, byte_at, slice_from.
  destruct (n <? 0) eqn:E; [lia|]. cbn [Z.ltb Z.compare Z.to_nat].
  generalize (Z.to_nat n) as k. clear.
  intros k. revert s. induction k as [|k IH]; intros [|c r]; cbn; auto.
Qed.

(** ** The text wrapper *)

Section Wrapper.

Variable width : Z.
Hypothesis width_pos : 1 <= width.
Hypothesis width_int : width <= int_max.

Lemma half_width : int_div width 2 = width / 2.
Proof. apply int_div2_small; zlia. Qed.

Lemma half_width_bounds : 0 <= width / 2 < width.
Proof.
  split; [apply Z.div_pos; lia | apply Z.div_lt; lia].
Qed.

Lemma scanBreak_spec (line : string) :
  forall (steps : nat) (i : Z),
    width / 2 <= i <= width ->
    i - width / 2 <= Z.of_nat steps ->
    (forall j : Z, i < j <= width -> is_space_at line j = false) ->
    last_space_break line width (scanBreak steps line width i).
Proof.
  pose proof half_width_bounds as Hh.
  induction steps as [|k IH]; intros i Hi Hsteps Habove; cbn [scanBreak].
  - right. split; [reflexivity|]. intros j Hj. apply Habove. lia.
  - rewrite half_width.
    destruct (i >? width / 2) eqn:Ei.
    + destruct ((i <? len line) && is_space_at line i) eqn:Es.
      * apply andb_prop in Es as [_ Es].
        left. split; [exact Es|]. split; [lia | exact Habove].
      * assert (Hi_false : is_space_at line i = false).
        { destruct (is_space_at line i) eqn:E; [|reflexivity].
          apply is_space_at_range in E. rewrite andb_true_r in Es. lia. }
        rewrite int_sub_small by zlia.
        apply IH; [lia | lia |].
        intros j Hj. destruct (Z.eq_dec j i) as [->|]; [exact Hi_false|].
        apply Habove. lia.
    + right. split; [reflexivity|]. intros j Hj. apply Habove. lia.
Qed.

Lemma breakPoint_spec (line : string) :
  last_space_break line width (breakPoint line width).
Proof.
  pose proof half_width_bounds as Hh.
  unfold breakPoint. apply scanBreak_spec; [lia | lia |].
  intros j Hj. lia.
Qed.

Lemma breakPoint_bounds (line : string) :
  1 <= breakPoint line width <= width.
Proof.
  pose proof half_width_bounds as Hh.
  destruct (breakPoint_spec line) as [(_ & Hb & _)|[-> _]]; lia.
Qed.

(** The continuation is shorter than the line it was cut from. *)
Lemma continuation_shorter (line : string) :
  width < len line ->
  (String.length (TrimLeft (slice_from line (breakPoint line width)))
   < String.length line)%nat.
Proof.
  intros Hlong. pose proof (breakPoint_bounds line) as Hb.
  pose proof (length_TrimLeft (slice_from line (breakPoint line width))) as Ht.
  unfold slice_from in *. rewrite length_drop in Ht. unfold len in Hlong. lia.
Qed.

(** Once the fuel exceeds the length of the line, more fuel changes
    nothing: [wrapLoop] is the loop of the source run to completion. *)
Lemma wrapLong_fuel :
  forall (f1 f2 : nat) (line : string),
    (String.length line < f1)%nat -> (String.length line < f2)%nat ->
    wrapLong f1 line width = wrapLong f2 line width.
Proof.
  induction f1 as [|k1 IH]; intros f2 line H1 H2; [lia|].
  destruct f2 as [|k2]; [lia|]. cbn [wrapLong].
  destruct (len line >? width) eqn:E; [|reflexivity].
  f_equal. pose proof (continuation_shorter line ltac:(lia)).
  apply IH; lia.
Qed.

Lemma wrapLongGaps_fuel :
  forall (f1 f2 : nat) (line : string),
    (String.length line < f1)%nat -> (String.length line < f2)%nat ->
    wrapLongGaps f1 line width = wrapLongGaps f2 line width.
Proof.
  induction f1 as [|k1 IH]; intros f2 line H1 H2; [lia|].
  destruct f2 as [|k2]; [lia|]. cbn [wrapLongGaps].
  destruct (len line >? width) eqn:E; [|reflexivity].
  f_equal. pose proof (continuation_shorter line ltac:(lia)).
  apply IH; lia.
Qed.

(** The loop, one iteration at a time. *)
Lemma wrapLoop_long (line : string) :
  width < len line ->
  wrapLoop line width
  = slice_to line (breakPoint line width)
      :: wrapLoop (TrimLeft (slice_from line (breakPoint line width))) width.
Proof.
  intros Hlong. unfold wrapLoop at 1. cbn [wrapLong].
  destruct (len line >? width) eqn:E; [|lia].
  f_equal. pose proof (continuation_shorter line Hlong).
  apply wrapLong_fuel; lia.
Qed.

Lemma wrapLoop_short (line : string) :
  len line <= width ->
  wrapLoop line width = if len line >? 0 then [line] else [].
Proof.
  intros Hshort. unfold wrapLoop. cbn [wrapLong].
  destruct (len line >? width) eqn:E; [lia | reflexivity].
Qed.

(** The lines and the gaps of the loop put the line back together. *)
Lemma wrapLong_weave :
  forall (fuel : nat) (line : string),
    (String.length line < fuel)%nat ->
    List.length (wrapLongGaps fuel line width)
    = List.length (wrapLong fuel line width)
    /\ Forall (fun g => all_spaces g = true) (wrapLongGaps fuel line width)
    /\ weave (wrapLong fuel line width) (wrapLongGaps fuel line width) = line.
Proof.
  induction fuel as [|k IH]; intros line Hfuel; [lia|].
  cbn [wrapLong wrapLongGaps].
  destruct (len line >? width) eqn:E.
  - pose proof (continuation_shorter line ltac:(lia)) as Hshorter.
    destruct (IH (TrimLeft (slice_from line (breakPoint line width)))
                ltac:(lia)) as (Hlen & Hsp & Hweave).
    cbn [List.length weave]. split; [now rewrite Hlen|]. split.
    + constructor; [apply all_spaces_leadingSpaces | exact Hsp].
    + rewrite Hweave. rewrite leadingSpaces_TrimLeft. apply take_drop.
  - destruct (len line >? 0) eqn:E0.
    + cbn. split; [reflexivity|]. split; [repeat constructor|].
      now rewrite append_nil_r.
    + cbn. split; [reflexivity|]. split; [constructor|].
      symmetry. apply length_zero. unfold len in E0. lia.
Qed.

(** Every line the loop emits for a trimmed line starts with a byte that
    is not a space. *)
Lemma wrapLong_unspaced :
  forall (fuel : nat) (line : string),
    line = "" \/ starts_unspaced line ->
    Forall starts_unspaced (wrapLong fuel line width).
Proof.
  induction fuel as [|k IH]; intros line Hline; cbn [wrapLong];
    [constructor|].
  destruct (len line >? width) eqn:E.
  - constructor; [|apply IH, TrimLeft_unspaced].
    pose proof (breakPoint_bounds line) as Hb.
    destruct Hline as [->|Hline]; [unfold len in E; cbn in E; lia|].
    unfold slice_to.
    destruct (Z.to_nat (breakPoint line width)) as [|n] eqn:En; [lia|].
    destruct line as [|c r]; [contradiction|]. exact Hline.
  - destruct (len line >? 0) eqn:E0; constructor; [|constructor].
    destruct Hline as [->|Hline]; [discriminate | exact Hline].
Qed.

End Wrapper.

Lemma wrapText_lines (text : string) (width : Z) :
  wrapText text width
  = flat_map (wrapLine (if width <=? 0 then 100 else width)) (Split text).
Proof. unfold wrapText. now rewrite fold_left_append. Qed.

Lemma wrapLine_weave (width : Z) (line : string) :
  1 <= width <= int_max ->
  List.length (wrapLineGaps width line) = List.length (wrapLine width line)
  /\ Forall (fun g => all_spaces g = true) (wrapLineGaps width line)
  /\ weave (wrapLine width line) (wrapLineGaps width line) = line.
Proof.
  intros [Hpos Hint]. unfold wrapLine, wrapLineGaps, wrapLoop.
  destruct (len line <=? width).
  - cbn. split; [reflexivity|]. split; [repeat constructor|].
    now rewrite append_nil_r.
  - apply wrapLong_weave; auto.
Qed.

Lemma ink_weave (chunks gaps : list string) :
  List.length gaps = List.length chunks ->
  Forall (fun g => all_spaces g = true) gaps ->
  ink (weave chunks gaps) = ink (concat chunks).
Proof.
  revert gaps. induction chunks as [|c cs IH]; intros [|g gs] Hlen Hsp;
    try discriminate; [reflexivity|].
  inversion Hsp as [|? ? Hg Hgs]; subst. cbn [weave concat].
  rewrite !ink_append, (ink_all_spaces g Hg). cbn [append].
  rewrite IH; auto.
Qed.

Lemma all_spaces_joint (gaps : list string) :
  Forall (fun g => all_spaces g = true) (map joint gaps).
Proof.
  induction gaps as [|g gs IH]; cbn; constructor; auto.
  destruct g; reflexivity.
Qed.

Lemma ink_wrapLines (width : Z) (lines : list string) :
  1 <= width <= int_max ->
  ink (concat (flat_map (wrapLine width) lines)) = ink (Join lines).
Proof.
  intros Hw. induction lines as [|l ls IH]; [reflexivity|].
  cbn [flat_map]. rewrite concat_app, ink_append, IH.
  destruct (wrapLine_weave width l Hw) as (Hlen & Hsp & Hweave).
  rewrite <- (ink_weave _ _ Hlen Hsp), Hweave.
  destruct ls as [|l2 ls]; cbn [Join].
  - cbn. now rewrite append_nil_r.
  - rewrite !ink_append. reflexivity.
Qed.

(** C7.  A line longer than the width [1 <= width <= int_max] is broken at
    [bp = breakPoint line width]: the last index in [(width/2, width]]
    holding a space when there is one, [width] itself otherwise.  The
    first [bp] bytes are emitted as a line and the loop goes on with the
    rest, its leading spaces trimmed (spaces are trimmed exactly when the
    break is at a space), so that no later line of the input line starts
    with a space.  A width [<= 0] is replaced by 100.  [wrapText] does
    this to every line of the text in turn: its output is the lines
    [wrapLine] gives for each line of [strings.Split(text, "\n")], at the
    width so corrected. *)
Theorem wrapText_break_rule :
  forall (text line : string) (width : Z),
    (1 <= width <= int_max -> width < len line ->
     let bp := breakPoint line width in
     let continuation := TrimLeft (slice_from line bp) in
     last_space_break line width bp
     /\ wrapLine width line = wrapLoop line width
     /\ wrapLoop line width = slice_to line bp :: wrapLoop continuation width
     /\ String.length (slice_to line bp) = Z.to_nat bp
     /\ leadingSpaces (slice_from line bp) ++ continuation = slice_from line bp
     /\ (leadingSpaces (slice_from line bp) = ""
         <-> is_space_at line bp = false)
     /\ (continuation = "" \/ starts_unspaced continuation)
     /\ Forall starts_unspaced (wrapLoop continuation width))
    /\ (1 <= width <= int_max -> len line <= width ->
        wrapLine width line = [line])
    /\ (width <= 0 -> wrapText text width = wrapText text 100)
    /\ wrapText text width
       = flat_map (wrapLine (if width <=? 0 then 100 else width))
                  (Split text).
Proof.
  intros text line width. split; [|split; [|split]].
  - intros [Hpos Hint] Hlong bp continuation.
    pose proof (breakPoint_bounds width Hpos Hint line) as Hb. fold bp in Hb.
    split; [apply breakPoint_spec; auto|].
    split. { unfold wrapLine. destruct (len line <=? width) eqn:E; [lia|reflexivity]. }
    split; [apply wrapLoop_long; auto|].
    split. { unfold slice_to. rewrite length_take. unfold len in Hlong. lia. }
    split; [apply leadingSpaces_TrimLeft|].
    split. { rewrite leadingSpaces_nil_iff, is_space_at_drop by lia. tauto. }
    split; [apply TrimLeft_unspaced|].
    apply wrapLong_unspaced; auto. apply TrimLeft_unspaced.
  - intros _ Hshort. unfold wrapLine.
    destruct (len line <=? width) eqn:E; [reflexivity | lia].
  - intros Hneg. unfold wrapText.
    destruct (width <=? 0) eqn:E; [reflexivity | lia].
  - apply wrapText_lines.
Qed.

Lemma wrapText_break_rule_witness :
  last_space_break sampleLine 7 5
  /\ wrapLine 7 sampleLine = "hello" :: wrapLoop "world foo bar" 7
  /\ wrapLine 7 sampleLine = ["hello"; "world"; "foo bar"]
  /\ wrapLine 7 "foo bar" = ["foo bar"]
  /\ wrapText sampleLine 0 = wrapText sampleLine 100.
Proof.
  destruct (wrapText_break_rule sampleLine sampleLine 7) as [Hlong _].
  destruct (wrapText_break_rule sampleLine sampleLine 0) as [_ [_ [Hneg _]]].
  destruct (wrapText_break_rule sampleLine "foo bar" 7) as [_ [Hshort _]].
  assert (H7 : 1 <= 7 <= int_max) by (split; [lia | vm_compute; discriminate]).
  destruct (Hlong H7 eq_refl) as (Hbp & Hline & Hloop & _).
  split; [exact Hbp|].
  split; [rewrite Hline; exact Hloop|].
  split; [reflexivity|].
  split; [apply (Hshort H7); vm_compute; discriminate|].
  apply Hneg. lia.
Defined.

(** C5.  For a width [1 <= width <= int_max]: the output is the lines of each input
    line in turn; each input line is its output lines with, after each of
    them, the spaces trimmed at that break (one or more at a soft break,
    none at a hard break or after the last line), so that re-joining the
    output lines with one space at each soft break differs from the input
    line only in the number of spaces at the soft breaks; the bytes other
    than spaces and line breaks of the whole output are those of the
    input, in order; and an empty input line gives one empty output
    line. *)
Theorem wrapText_lossless :
  forall (text line : string) (width : Z),
    1 <= width <= int_max ->
    wrapText text width = flat_map (wrapLine width) (Split text)
    /\ Join (Split text) = text
    /\ (let chunks := wrapLine width line in
        let gaps := wrapLineGaps width line in
        List.length gaps = List.length chunks
        /\ Forall (fun g => all_spaces g = true) gaps
        /\ weave chunks gaps = line
        /\ rejoin chunks gaps = weave chunks (map joint gaps)
        /\ Forall (fun g => all_spaces g = true) (map joint gaps)
        /\ ink (rejoin chunks gaps) = ink line
        /\ ink (concat chunks) = ink line)
    /\ ink (concat (wrapText text width)) = ink text
    /\ wrapLine width "" = [""].
Proof.
  intros text line width Hw.
  assert (Hlines : wrapText text width = flat_map (wrapLine width) (Split text)).
  { rewrite wrapText_lines. destruct (width <=? 0) eqn:E; [lia | reflexivity]. }
  split; [exact Hlines|]. split; [apply Join_Split|]. split; [|split].
  - intros chunks gaps.
    destruct (wrapLine_weave width line Hw) as (Hlen & Hsp & Hweave).
    fold chunks gaps in Hlen, Hsp, Hweave.
    split; [exact Hlen|]. split; [exact Hsp|]. split; [exact Hweave|].
    split; [reflexivity|]. split; [apply all_spaces_joint|].
    assert (Hink : ink (concat chunks) = ink line)
      by (rewrite <- (ink_weave _ _ Hlen Hsp), Hweave; reflexivity).
    split; [|exact Hink].
    unfold rejoin. rewrite ink_weave; [exact Hink | | apply all_spaces_joint].
    rewrite length_map. exact Hlen.
  - rewrite Hlines, (ink_wrapLines width _ Hw), Join_Split. reflexivity.
  - unfold wrapLine. destruct (len "" <=? width) eqn:E; [reflexivity|].
    unfold len in E. cbn in E. lia.
Qed.

Lemma wrapText_lossless_witness :
  wrapText sampleText 4
  = ["aaaa"; "bbbb"; ""; "abcd"; "efgh"; "ij k"]
  /\ wrapLineGaps 4 "aaaa     bbbb" = ["     "; ""]
  /\ weave ["aaaa"; "bbbb"] ["     "; ""] = "aaaa     bbbb"
  /\ rejoin ["aaaa"; "bbbb"] ["     "; ""] = "aaaa bbbb"
  /\ wrapLineGaps 4 "abcdefghij k" = [""; ""; ""]
  /\ ink (concat (wrapText sampleText 4)) = "aaaabbbbabcdefghijk"
  /\ ink sampleText = "aaaabbbbabcdefghijk".
Proof.
  assert (H4 : 1 <= 4 <= int_max) by (split; [lia | vm_compute; discriminate]).
  destruct (wrapText_lossless sampleText "aaaa     bbbb" 4 H4)
    as (Hlines & _ & (_ & _ & Hweave & Hrejoin & _) & Hink & _).
  split; [rewrite Hlines; reflexivity|].
  split; [reflexivity|].
  split; [exact Hweave|].
  split; [exact Hrejoin|].
  split; [reflexivity|].
  split; [rewrite Hink; reflexivity | reflexivity].
Defined.

(* ================================================================== *)
(** * Further properties of the reducer *)

Lemma key_in_enter (key : string) :
  key_in key ["enter"] = true -> key = "enter".
Proof.
  unfold key_in. cbn [existsb]. rewrite orb_false_r. apply String.eqb_eq.
Qed.

Lemma index_in_range {A : Type} (l : list A) (i : Z) :
  0 <= i < llen l -> exists a : A, index l i = Ok a.
Proof.
  intros Hi. unfold index.
  destruct ((i <? 0) || (i >=? llen l)) eqn:E; [exfalso; lia|].
  destruct (nth_error l (Z.to_nat i)) as [a|] eqn:En; [now exists a|].
  apply nth_error_None in En. unfold llen in Hi. lia.
Qed.

Lemma index_out_of_range {A : Type} (l : list A) (i : Z) :
  i < 0 \/ llen l <= i -> index l i = Panic IndexOutOfRange.
Proof.
  intros Hi. unfold index.
  destruct ((i <? 0) || (i >=? llen l)) eqn:E; [reflexivity | exfalso; lia].
Qed.

Lemma index_panic {A : Type} (l : list A) (i : Z) (p : panic) :
  index l i = Panic p -> p = IndexOutOfRange /\ (i < 0 \/ llen l <= i).
Proof.
  intros H.
  destruct (Z_lt_ge_dec i 0) as [Hneg|Hpos];
    [rewrite index_out_of_range in H by lia; split; [congruence | lia]|].
  destruct (Z_lt_ge_dec i (llen l)) as [Hlt|Hge].
  - destruct (index_in_range l i ltac:(lia)) as [a Ha]. congruence.
  - rewrite index_out_of_range in H by lia. split; [congruence | lia].
Qed.

(** X1.  [Update] panics in one situation only: [enter] on the queue
    screen with a non-empty job list and a selection outside of it; the
    panic is then an index out of range. *)
Theorem Update_panics_iff :
  forall (m : Model) (msg : Msg) (p : panic),
    Update m msg = Panic p
    <-> (msg = KeyMsg "enter"
         /\ p = IndexOutOfRange
         /\ currentView m = viewQueue
         /\ 0 < llen (jobs m)
         /\ (selectedIdx m < 0 \/ llen (jobs m) <= selectedIdx m)).
Proof.
  intros m msg p. split.
  - intros HU.
    destruct msg as [key|w h| |js|s|r|e|]; cbn [Update] in HU;
      try discriminate;
      try (destruct (_ >=? _); discriminate).
    destruct (key_in key ["ctrl+c"; "q"]);
      [destruct (view_eqb _ _); discriminate|].
    destruct (key_in key ["up"; "k"]).
    { destruct (view_eqb _ _); [destruct (_ >? _)|destruct (_ >? _)];
        discriminate. }
    destruct (key_in key ["down"; "j"]).
    { destruct (view_eqb _ _); [destruct (_ <? _)|]; discriminate. }
    destruct (key_in key ["enter"]) eqn:Ek.
    + apply key_in_enter in Ek. subst key.
      destruct (currentView m) eqn:Hv; cbn [view_eqb andb] in HU;
        [|discriminate].
      destruct (llen (jobs m) >? 0) eqn:Hn; [|discriminate].
      destruct (index (jobs m) (selectedIdx m)) as [job|q] eqn:Hi;
        cbn [bind] in HU.
      * destruct (String.eqb _ _); [discriminate|].
        destruct (String.eqb _ _); discriminate.
      * injection HU as ->. apply index_panic in Hi as [-> Hi].
        repeat split; auto. lia.
    + destruct (key_in key ["esc"]); [destruct (view_eqb _ _)|]; discriminate.
  - intros (-> & -> & Hv & Hn & Hs). unfold Update.
    cbn [key_in existsb String.eqb Ascii.eqb Bool.eqb orb].
    rewrite Hv. cbn [view_eqb andb].
    destruct (llen (jobs m) >? 0) eqn:E; [|lia].
    now rewrite index_out_of_range.
Qed.

Lemma run_keeps_serverAddr (msgs : list Msg) :
  forall m0 m : Model, run m0 msgs = Ok m -> serverAddr m = serverAddr m0.
Proof.
  induction msgs as [|msg rest IH]; intros m0 m Hrun.
  - cbn in Hrun. now injection Hrun as <-.
  - cbn [run] in Hrun.
    destruct (Update m0 msg) as [[m1 cmd]|p] eqn:HU; [|discriminate].
    cbn [bind fst] in Hrun. rewrite (IH m1 m Hrun).
    destruct msg as [key|w h| |js|s|r|e|]; cbn [Update] in HU;
      break_Update HU; try discriminate; injection HU as <- <-; reflexivity.
Qed.

(** X2.  The event loop does not panic: from the initial model, any
    sequence of messages whose slices and [int] fields are values of
    Go's types is folded into a model, and in that model the selection
    is an index of the job list (0 when the list is empty) and the
    server address is the one the model was created with. *)
Theorem run_from_NewModel_never_panics :
  forall (addr : string) (msgs : list Msg),
    Forall Msg_wf msgs ->
    exists m : Model,
      run (NewModel addr) msgs = Ok m
      /\ selection_ok m
      /\ serverAddr m = addr.
Proof.
  intros addr msgs Hwf.
  destruct (NewModel_selection_ok addr) as [Hsel Hfit].
  destruct (run_keeps_selection msgs Hwf (NewModel addr) Hfit Hsel)
    as (m & Hrun & Hsel' & _).
  exists m. split; [exact Hrun|]. split; [exact Hsel'|].
  apply (run_keeps_serverAddr msgs (NewModel addr) m Hrun).
Qed.

Lemma run_from_NewModel_never_panics_witness :
  exists m : Model,
    run (NewModel "http://127.0.0.1:7373") scrollPastEnd = Ok m
    /\ selection_ok m
    /\ serverAddr m = "http://127.0.0.1:7373".
Proof.
  apply (run_from_NewModel_never_panics "http://127.0.0.1:7373" scrollPastEnd).
  unfold scrollPastEnd. repeat constructor. vm_compute. discriminate.
Defined.

Lemma Update_panics_iff_witness :
  Update danglingSelection (KeyMsg "enter") = Panic IndexOutOfRange.
Proof.
  apply (Update_panics_iff danglingSelection (KeyMsg "enter") IndexOutOfRange).
  repeat split; try reflexivity. right. vm_compute. discriminate.
Defined.

(** ** The two screens *)

Lemma Update_keeps_screen (m m' : Model) (msg : Msg) (cmd : Cmd) :
  review_delivered msg -> screen_ok m ->
  Update m msg = Ok (m', cmd) -> screen_ok m'.
Proof.
  unfold screen_ok. intros Hmsg Hm HU.
  destruct m as [addr js0 st sel v rv sc w0 h0 er].
  cbn [currentView currentReview reviewScroll] in Hm.
  destruct msg as [key|w h| |js|s|[r|]|e|]; cbn [Update] in HU;
    try contradiction;
    break_Update HU; try discriminate; injection HU as <- <-;
    cbn [currentView currentReview reviewScroll set_reviewScroll
         set_selectedIdx set_currentView set_currentReview set_jobs
         set_status set_err set_width set_height backToQueue
         serverAddr jobs status selectedIdx width height err] in *;
    try exact Hm; try (split; reflexivity); try discriminate;
    destruct v; cbn [view_eqb] in *; try discriminate; try exact Hm.
Qed.

(** X3.  The queue screen never holds a review and always has its scroll
    offset at 0, and the review screen always holds a review: this is so
    in every model the event loop reaches from the initial one, as long
    as no [reviewMsg] carries a nil review (no fetcher sends one). *)
Theorem run_keeps_screen_state :
  forall (addr : string) (msgs : list Msg) (m : Model),
    Forall review_delivered msgs ->
    run (NewModel addr) msgs = Ok m ->
    screen_ok m.
Proof.
  intros addr msgs m Hmsgs.
  assert (H0 : screen_ok (NewModel addr)) by (cbn; auto).
  revert H0. generalize (NewModel addr) as m0.
  induction Hmsgs as [|msg rest Hmsg _ IH]; intros m0 H0 Hrun.
  - cbn in Hrun. now injection Hrun as <-.
  - cbn [run] in Hrun.
    destruct (Update m0 msg) as [[m1 cmd]|p] eqn:HU; [|discriminate].
    cbn [bind fst] in Hrun.
    apply (IH m1); [|exact Hrun].
    apply (Update_keeps_screen m0 m1 msg cmd Hmsg H0 HU).
Qed.

Lemma run_keeps_screen_state_witness :
  match run (NewModel "") scrollPastEnd with
  | Ok m => screen_ok m
  | Panic _ => False
  end.
Proof.
  destruct (run (NewModel "") scrollPastEnd) as [m|p] eqn:Hrun.
  - apply (run_keeps_screen_state "" scrollPastEnd m); [|exact Hrun].
    unfold scrollPastEnd. repeat constructor.
  - vm_compute in Hrun. discriminate.
Defined.

(** X4.  Each message writes its own part of the model.  A transition
    never changes the server address; it changes the job list only on a
    [jobsMsg], the daemon status only on a [statusMsg], the terminal
    size only on a [WindowSizeMsg], the stored error only on an
    [errMsg]; the screen, the held review and the scroll offset only on
    a key or a [reviewMsg]; and the selection only on a key or a
    [jobsMsg]. *)
Theorem Update_frame :
  forall (m m' : Model) (msg : Msg) (cmd : Cmd),
    Update m msg = Ok (m', cmd) ->
    serverAddr m' = serverAddr m
    /\ ((forall js, msg <> jobsMsg js) -> jobs m' = jobs m)
    /\ ((forall s, msg <> statusMsg s) -> status m' = status m)
    /\ ((forall w h, msg <> WindowSizeMsg w h) ->
        width m' = width m /\ height m' = height m)
    /\ ((forall e, msg <> errMsg e) -> err m' = err m)
    /\ ((forall key, msg <> KeyMsg key) -> (forall r, msg <> reviewMsg r) ->
        currentView m' = currentView m
        /\ currentReview m' = currentReview m
        /\ reviewScroll m' = reviewScroll m)
    /\ ((forall key, msg <> KeyMsg key) -> (forall js, msg <> jobsMsg js) ->
        selectedIdx m' = selectedIdx m).
Proof.
  intros m m' msg cmd HU.
  destruct msg as [key|w h| |js|s|r|e|]; cbn [Update] in HU;
    break_Update HU; try discriminate; injection HU as <- <-;
    cbn [serverAddr jobs status selectedIdx currentView currentReview
         reviewScroll width height err set_reviewScroll
         set_selectedIdx set_currentView set_currentReview set_jobs
         set_status set_err set_width set_height backToQueue];
    repeat split; intros; try reflexivity;
    match goal with
    | H : forall x, _ <> _ |- _ => exfalso; eapply H; reflexivity
    | H : forall x y, _ <> _ |- _ => exfalso; eapply H; reflexivity
    end.
Qed.

Lemma Update_frame_witness :
  exists m' : Model,
    Update threeJobs (statusMsg (mkDaemonStatus 1 4 2 1 7 0))
    = Ok (m', [])
    /\ serverAddr m' = serverAddr threeJobs
    /\ jobs m' = jobs threeJobs
    /\ (width m' = width threeJobs /\ height m' = height threeJobs)
    /\ err m' = err threeJobs
    /\ (currentView m' = currentView threeJobs
        /\ currentReview m' = currentReview threeJobs
        /\ reviewScroll m' = reviewScroll threeJobs)
    /\ selectedIdx m' = selectedIdx threeJobs.
Proof.
  eexists. split; [reflexivity|].
  destruct (Update_frame threeJobs _ (statusMsg (mkDaemonStatus 1 4 2 1 7 0))
              [] eq_refl) as (Ha & Hj & _ & Hw & He & Hv & Hs).
  split; [exact Ha|].
  split; [apply Hj; discriminate|].
  split; [apply Hw; discriminate|].
  split; [apply He; discriminate|].
  split; [apply Hv; discriminate | apply Hs; discriminate].
Defined.

(** ** Commands *)

Lemma key_in_In (key : string) (names : list string) :
  key_in key names = true <-> In key names.
Proof.
  unfold key_in. rewrite existsb_exists. split.
  - intros (x & Hx & Heq). apply String.eqb_eq in Heq. now subst.
  - intros H. exists key. split; [exact H | apply String.eqb_refl].
Qed.

(** X5.  [Update] hands a command to the runtime in exactly three
    situations, and leaves the model as it is in each of them: [q] or
    [ctrl+c] on the queue screen (quit); a tick (the next tick and the
    two polling fetches, at the model's server address); [enter] on the
    queue screen with a selected job whose status is ["done"] (the fetch
    of that job's review, by its id, at the model's server address). *)
Theorem Update_issues_command_iff :
  forall (m m' : Model) (msg : Msg) (cmd : Cmd),
    (Update m msg = Ok (m', cmd) /\ cmd <> [])
    <-> (m' = m
         /\ ((exists key : string,
                msg = KeyMsg key /\ In key ["ctrl+c"; "q"]
                /\ currentView m = viewQueue /\ cmd = [Quit])
             \/ (msg = tickMsg
                 /\ cmd = [Tick; FetchJobs (serverAddr m);
                           FetchStatus (serverAddr m)])
             \/ (exists job : ReviewJob,
                   msg = KeyMsg "enter"
                   /\ currentView m = viewQueue
                   /\ index (jobs m) (selectedIdx m) = Ok job
                   /\ Status job = "done"
                   /\ cmd = [FetchReview (serverAddr m) (ID job)]))).
Proof.
  intros m m' msg cmd. split.
  - intros [HU Hcmd].
    destruct msg as [key|w h| |js|s|r|e|]; cbn [Update] in HU;
      try (injection HU as <- <-; contradiction);
      try (destruct (_ >=? _); injection HU as <- <-; contradiction).
    + destruct (key_in key ["ctrl+c"; "q"]) eqn:Eq.
      { destruct (currentView m) eqn:Hv; cbn [view_eqb] in HU;
          injection HU as <- <-; [|contradiction].
        split; [reflexivity|]. left. exists key.
        apply key_in_In in Eq. auto. }
      destruct (key_in key ["up"; "k"]).
      { destruct (view_eqb _ _); [destruct (_ >? _)|destruct (_ >? _)];
          injection HU as <- <-; contradiction. }
      destruct (key_in key ["down"; "j"]).
      { destruct (view_eqb _ _); [destruct (_ <? _)|];
          injection HU as <- <-; contradiction. }
      destruct (key_in key ["enter"]) eqn:Ek.
      { apply key_in_enter in Ek. subst key.
        destruct (currentView m) eqn:Hv; cbn [view_eqb andb] in HU;
          [|injection HU as <- <-; contradiction].
        destruct (llen (jobs m) >? 0);
          [|injection HU as <- <-; contradiction].
        destruct (index (jobs m) (selectedIdx m)) as [job|q] eqn:Hi;
          cbn [bind] in HU; [|discriminate].
        destruct (String.eqb_spec (Status job) JobStatusDone) as [Hd|_].
        - injection HU as <- <-. split; [reflexivity|]. right. right.
          exists job. repeat split; auto.
        - destruct (String.eqb _ _); injection HU as <- <-; contradiction. }
      destruct (key_in key ["esc"]); [destruct (view_eqb _ _)|];
        injection HU as <- <-; contradiction.
    + injection HU as <- <-. split; [reflexivity|]. right. left. auto.
  - intros [-> [(key & -> & Hkey & Hv & ->)|[(-> & ->)|(job & -> & Hv & Hi & Hd & ->)]]].
    + split; [|discriminate]. unfold Update.
      apply key_in_In in Hkey. rewrite Hkey, Hv. reflexivity.
    + split; [reflexivity | discriminate].
    + split; [|discriminate]. unfold Update.
      cbn [key_in existsb String.eqb Ascii.eqb Bool.eqb orb].
      pose proof (index_Ok_llen _ _ _ Hi) as Hlen.
      rewrite Hv. cbn [view_eqb andb].
      destruct (llen (jobs m) >? 0) eqn:E; [|lia].
      rewrite Hi. cbn [bind]. rewrite Hd. reflexivity.
Qed.

Lemma Update_issues_command_iff_witness :
  Update (set_selectedIdx threeJobs 2) (KeyMsg "enter")
  = Ok (set_selectedIdx threeJobs 2, [FetchReview "http://127.0.0.1:7373" 9])
  /\ Update threeJobs (KeyMsg "q") = Ok (threeJobs, [Quit]).
Proof.
  split.
  - apply (Update_issues_command_iff (set_selectedIdx threeJobs 2)
             (set_selectedIdx threeJobs 2) (KeyMsg "enter")
             [FetchReview "http://127.0.0.1:7373" 9]).
    split; [reflexivity|]. right. right. exists job9. repeat split.
  - apply (Update_issues_command_iff threeJobs threeJobs (KeyMsg "q") [Quit]).
    split; [reflexivity|]. left. exists "q". repeat split. cbn. auto.
Defined.

(** ** Leaving the review screen *)

Lemma run_app (a b : list Msg) (m : Model) :
  run m (a ++ b) = bind (run m a) (fun m1 => run m1 b).
Proof.
  revert m. induction a as [|msg a IH]; intros m; cbn [run app bind];
    [reflexivity|].
  destruct (Update m msg) as [[m1 cmd]|p]; cbn [bind fst]; [apply IH|reflexivity].
Qed.

(** On the review screen the scroll keys change the scroll offset and
    nothing else. *)
Lemma run_scroll_keys (keys : list string) :
  Forall (fun key => scroll_key key = true) keys ->
  forall m : Model,
    currentView m = viewReview ->
    exists z : Z, run m (map KeyMsg keys) = Ok (set_reviewScroll m z).
Proof.
  induction 1 as [|key keys Hkey _ IH]; intros m Hv.
  - exists (reviewScroll m). cbn. now destruct m.
  - assert (HU : exists z, Update m (KeyMsg key)
                           = Ok (set_reviewScroll m z, [])).
    { apply key_in_In in Hkey. cbn [In] in Hkey.
      destruct Hkey as [<-|[<-|[<-|[<-|[]]]]]; unfold Update;
        cbn [key_in existsb String.eqb Ascii.eqb Bool.eqb orb];
        rewrite Hv; cbn [view_eqb];
        try (destruct (reviewScroll m >? 0);
             [eexists; reflexivity | exists (reviewScroll m); now destruct m]);
        eexists; reflexivity. }
    destruct HU as [z HU].
    destruct (IH (set_reviewScroll m z) Hv) as [z' Hrun].
    exists z'. cbn [map run]. rewrite HU. cbn [bind fst]. rewrite Hrun.
    reflexivity.
Qed.

Lemma Update_back_key (m : Model) (key : string) :
  back_key key = true -> currentView m = viewReview ->
  Update m (KeyMsg key) = Ok (backToQueue m, []).
Proof.
  intros Hkey Hv. apply key_in_In in Hkey. cbn [In] in Hkey.
  destruct Hkey as [<-|[<-|[<-|[]]]]; unfold Update;
    cbn [key_in existsb String.eqb Ascii.eqb Bool.eqb orb];
    rewrite Hv; reflexivity.
Qed.

Lemma Update_enter_failed_job_eq (m : Model) (job : ReviewJob) :
  currentView m = viewQueue ->
  index (jobs m) (selectedIdx m) = Ok job ->
  Status job = "failed" ->
  exists m1 : Model,
    Update m (KeyMsg "enter") = Ok (m1, [])
    /\ currentView m1 = viewReview
    /\ backToQueue m1 = backToQueue m.
Proof.
  intros Hv Hi Hf. pose proof (index_Ok_llen _ _ _ Hi) as Hlen.
  eexists. split; [|split].
  - unfold Update. cbn [key_in existsb String.eqb Ascii.eqb Bool.eqb orb].
    rewrite Hv. cbn [view_eqb andb].
    destruct (llen (jobs m) >? 0) eqn:E; [|lia].
    rewrite Hi. cbn [bind]. rewrite Hf. reflexivity.
  - reflexivity.
  - reflexivity.
Qed.

Lemma Update_scroll_key_review (m : Model) (key : string) :
  scroll_key key = true -> currentView m = viewReview ->
  exists z : Z, Update m (KeyMsg key) = Ok (set_reviewScroll m z, []).
Proof.
  intros Hkey Hv. apply key_in_In in Hkey. cbn [In] in Hkey.
  destruct Hkey as [<-|[<-|[<-|[<-|[]]]]]; unfold Update;
    cbn [key_in existsb String.eqb Ascii.eqb Bool.eqb orb];
    rewrite Hv; cbn [view_eqb];
    try (destruct (reviewScroll m >? 0);
         [eexists; reflexivity | exists (reviewScroll m); now destruct m]);
    eexists; reflexivity.
Qed.

(** Scrolling on the review screen and then leaving it hands no command
    to the runtime and gives the queue screen the visit started from. *)
Lemma runCmd_scroll_then_back (keys : list string) (back : string) :
  Forall (fun key => scroll_key key = true) keys ->
  back_key back = true ->
  forall m : Model,
    currentView m = viewReview ->
    runCmd m (map KeyMsg keys ++ [KeyMsg back]) = Ok (backToQueue m, []).
Proof.
  intros Hkeys Hback.
  induction Hkeys as [|key keys Hkey _ IH]; intros m Hv.
  - cbn [map app runCmd]. rewrite Update_back_key by auto. reflexivity.
  - destruct (Update_scroll_key_review m key Hkey Hv) as [z HU].
    cbn [map app runCmd]. rewrite HU. cbn [bind fst snd].
    rewrite (IH (set_reviewScroll m z) Hv). reflexivity.
Qed.

(** X6.  A visit to the review screen leaves no trace.  From a queue
    screen (no review held, scroll offset 0), a delivered review, or
    [enter] on a failed job, followed by any number of scroll keys and
    then [esc], [q] or [ctrl+c], gives back the model the visit started
    from, and no transition of the visit hands a command to the runtime:
    on the review screen [q] and [ctrl+c] go back to the queue and return
    a nil command, they do not quit. *)
Theorem review_visit_restores_queue :
  forall (m : Model) (r : option Review) (job : ReviewJob)
         (keys : list string) (back : string),
    currentView m = viewQueue ->
    currentReview m = None ->
    reviewScroll m = 0 ->
    Forall (fun key => scroll_key key = true) keys ->
    back_key back = true ->
    run m (reviewMsg r :: map KeyMsg keys ++ [KeyMsg back]) = Ok m
    /\ (index (jobs m) (selectedIdx m) = Ok job ->
        Status job = "failed" ->
        run m (KeyMsg "enter" :: map KeyMsg keys ++ [KeyMsg back]) = Ok m)
    /\ runCmd m (reviewMsg r :: map KeyMsg keys ++ [KeyMsg back]) = Ok (m, [])
    /\ (index (jobs m) (selectedIdx m) = Ok job ->
        Status job = "failed" ->
        runCmd m (KeyMsg "enter" :: map KeyMsg keys ++ [KeyMsg back])
        = Ok (m, []))
    /\ (forall m1 : Model,
          currentView m1 = viewReview ->
          Update m1 (KeyMsg back) = Ok (backToQueue m1, [])).
Proof.
  intros m r job keys back Hv Hr Hs Hkeys Hback.
  assert (Hvisit : forall m1 : Model,
             currentView m1 = viewReview -> backToQueue m1 = m ->
             run m1 (map KeyMsg keys ++ [KeyMsg back]) = Ok m).
  { intros m1 Hv1 Hm1. rewrite run_app.
    destruct (run_scroll_keys keys Hkeys m1 Hv1) as [z ->].
    cbn [bind run]. rewrite Update_back_key by auto. cbn [bind fst].
    f_equal. rewrite <- Hm1. reflexivity. }
  assert (Hback_m : backToQueue m = m)
    by (destruct m; cbn in *; subst; reflexivity).
  split; [|split; [|split; [|split]]].
  - cbn [run Update bind fst]. apply Hvisit; [reflexivity | exact Hback_m].
  - intros Hi Hf. cbn [run].
    destruct (Update_enter_failed_job_eq m job Hv Hi Hf) as [m1 [HU [Hv1 Hb]]].
    rewrite HU. cbn [bind fst]. apply Hvisit; [exact Hv1|].
    now rewrite Hb.
  - cbn [runCmd Update bind fst snd].
    rewrite runCmd_scroll_then_back by auto. cbn [bind fst snd app].
    f_equal. f_equal. exact Hback_m.
  - intros Hi Hf. cbn [runCmd].
    destruct (Update_enter_failed_job_eq m job Hv Hi Hf) as [m1 [HU [Hv1 Hb]]].
    rewrite HU. cbn [bind fst snd].
    rewrite runCmd_scroll_then_back by auto. cbn [bind fst snd app].
    f_equal. f_equal. now rewrite Hb.
  - intros m1 Hv1. now apply Update_back_key.
Qed.

Lemma review_visit_restores_queue_witness :
  run queueOfJob7
      (reviewMsg (Some review9)
         :: map KeyMsg ["down"; "j"; "up"] ++ [KeyMsg "q"]) = Ok queueOfJob7
  /\ run queueOfJob7
         (KeyMsg "enter" :: map KeyMsg ["down"; "j"; "up"] ++ [KeyMsg "q"])
     = Ok queueOfJob7
  /\ runCmd queueOfJob7
       (reviewMsg (Some review9)
          :: map KeyMsg ["down"; "j"; "up"] ++ [KeyMsg "q"])
     = Ok (queueOfJob7, [])
  /\ runCmd queueOfJob7
       (KeyMsg "enter" :: map KeyMsg ["down"; "j"; "up"] ++ [KeyMsg "q"])
     = Ok (queueOfJob7, []).
Proof.
  destruct (review_visit_restores_queue queueOfJob7 (Some review9) job7
              ["down"; "j"; "up"] "q" eq_refl eq_refl eq_refl)
    as (Hfetched & Hfailed & Hcf & Hce & _).
  - repeat constructor.
  - reflexivity.
  - split; [exact Hfetched|]. split; [exact (Hfailed eq_refl eq_refl)|].
    split; [exact Hcf | exact (Hce eq_refl eq_refl)].
Defined.

(** ** Moving the selection *)

Lemma set_selectedIdx_same (m : Model) : set_selectedIdx m (selectedIdx m) = m.
Proof. now destruct m. Qed.

Lemma set_selectedIdx_twice (m : Model) (a b : Z) :
  set_selectedIdx (set_selectedIdx m a) b = set_selectedIdx m b.
Proof. reflexivity. Qed.

Lemma selectedIdx_set (m : Model) (v : Z) :
  selectedIdx (set_selectedIdx m v) = v.
Proof. reflexivity. Qed.

Lemma jobs_set_selectedIdx (m : Model) (v : Z) :
  jobs (set_selectedIdx m v) = jobs m.
Proof. reflexivity. Qed.

Lemma Update_down_queue (m : Model) (key : string) :
  In key ["down"; "j"] ->
  currentView m = viewQueue -> jobs_fit m -> fits_int (selectedIdx m) ->
  Update m (KeyMsg key)
  = Ok (set_selectedIdx m
          (if selectedIdx m <? llen (jobs m) - 1
           then selectedIdx m + 1 else selectedIdx m), []).
Proof.
  intros Hkey Hv Hfit Hs. unfold jobs_fit in Hfit.
  pose proof (Nat2Z.is_nonneg (List.length (jobs m))) as Hn0.
  fold (llen (jobs m)) in Hn0.
  cbn [In] in Hkey. destruct Hkey as [<-|[<-|[]]]; unfold Update;
    cbn [key_in existsb String.eqb Ascii.eqb Bool.eqb orb];
    rewrite Hv; cbn [view_eqb]; int_small;
    (destruct (selectedIdx m <? llen (jobs m) - 1) eqn:E;
     [int_small; reflexivity | now rewrite set_selectedIdx_same]).
Qed.

Lemma Update_up_queue (m : Model) (key : string) :
  In key ["up"; "k"] ->
  currentView m = viewQueue -> fits_int (selectedIdx m) ->
  Update m (KeyMsg key)
  = Ok (set_selectedIdx m
          (if selectedIdx m >? 0
           then selectedIdx m - 1 else selectedIdx m), []).
Proof.
  intros Hkey Hv Hs.
  cbn [In] in Hkey. destruct Hkey as [<-|[<-|[]]]; unfold Update;
    cbn [key_in existsb String.eqb Ascii.eqb Bool.eqb orb];
    rewrite Hv; cbn [view_eqb];
    (destruct (selectedIdx m >? 0) eqn:E;
     [int_small; reflexivity | now rewrite set_selectedIdx_same]).
Qed.

Lemma run_presses_down (key : string) (k : nat) :
  In key ["down"; "j"] ->
  forall m : Model,
    currentView m = viewQueue -> jobs_fit m -> fits_int (selectedIdx m) ->
    run m (presses key k)
    = Ok (set_selectedIdx m
            (Z.max (selectedIdx m)
                   (Z.min (selectedIdx m + Z.of_nat k) (llen (jobs m) - 1)))).
Proof.
  intros Hkey. induction k as [|k IH]; intros m Hv Hfit Hs.
  - cbn [presses List.repeat run]. f_equal.
    rewrite <- (set_selectedIdx_same m) at 1. f_equal. lia.
  - cbn [presses List.repeat run]. rewrite Update_down_queue by auto.
    cbn [bind fst]. fold (presses key k).
    unfold jobs_fit in Hfit.
    rewrite IH; [| exact Hv | exact Hfit |].
    + rewrite set_selectedIdx_twice, selectedIdx_set, jobs_set_selectedIdx.
      f_equal. f_equal.
      destruct (selectedIdx m <? llen (jobs m) - 1) eqn:E; lia.
    + cbn [selectedIdx set_selectedIdx].
      destruct (selectedIdx m <? llen (jobs m) - 1) eqn:E; zlia.
Qed.

Lemma run_presses_up (key : string) (k : nat) :
  In key ["up"; "k"] ->
  forall m : Model,
    currentView m = viewQueue -> fits_int (selectedIdx m) ->
    run m (presses key k)
    = Ok (set_selectedIdx m
            (Z.min (selectedIdx m)
                   (Z.max (selectedIdx m - Z.of_nat k) 0))).
Proof.
  intros Hkey. induction k as [|k IH]; intros m Hv Hs.
  - cbn [presses List.repeat run]. f_equal.
    rewrite <- (set_selectedIdx_same m) at 1. f_equal. lia.
  - cbn [presses List.repeat run]. rewrite Update_up_queue by auto.
    cbn [bind fst]. fold (presses key k).
    rewrite IH; [| exact Hv |].
    + rewrite set_selectedIdx_twice, selectedIdx_set.
      f_equal. f_equal.
      destruct (selectedIdx m >? 0) eqn:E; lia.
    + cbn [selectedIdx set_selectedIdx].
      destruct (selectedIdx m >? 0) eqn:E; zlia.
Qed.

(** X7.  On the queue screen the selection moves one row per key press
    and stops at the ends of the list.  From the selection [s] in a list
    of [n] jobs, [k] presses of [down] (or [j]) leave the selection at
    [min (s + k) (n - 1)], and [k] presses of [up] (or [k]) at
    [max (s - k) 0]; nothing else in the model changes.  (For a selection
    outside of the list the statement gives the general result: [down]
    does not bring back a selection past the end, nor [up] one below 0.) *)
Theorem selection_moves_and_stops :
  forall (m : Model) (k : nat),
    currentView m = viewQueue -> jobs_fit m -> fits_int (selectedIdx m) ->
    let s := selectedIdx m in
    let n := llen (jobs m) in
    let down := set_selectedIdx m (Z.max s (Z.min (s + Z.of_nat k) (n - 1))) in
    let up := set_selectedIdx m (Z.min s (Z.max (s - Z.of_nat k) 0)) in
    run m (presses "down" k) = Ok down
    /\ run m (presses "j" k) = Ok down
    /\ run m (presses "up" k) = Ok up
    /\ run m (presses "k" k) = Ok up
    /\ (selection_ok m -> 0 < n ->
        selectedIdx down = Z.min (s + Z.of_nat k) (n - 1)
        /\ selectedIdx up = Z.max (s - Z.of_nat k) 0).
Proof.
  intros m k Hv Hfit Hs s n down up.
  split; [apply run_presses_down; cbn; auto|].
  split; [apply run_presses_down; cbn; auto|].
  split; [apply run_presses_up; cbn; auto|].
  split; [apply run_presses_up; cbn; auto|].
  intros [_ Hsel] Hn. specialize (Hsel Hn). fold s n in Hsel.
  subst down up. cbn [selectedIdx set_selectedIdx]. lia.
Qed.

Lemma selection_moves_and_stops_witness :
  run threeJobs (presses "down" 5) = Ok (set_selectedIdx threeJobs 2)
  /\ run (set_selectedIdx threeJobs 2) (presses "k" 1)
     = Ok (set_selectedIdx threeJobs 1)
  /\ run (set_selectedIdx threeJobs 2) (presses "up" 7) = Ok threeJobs.
Proof.
  assert (Hfit : jobs_fit threeJobs) by (vm_compute; discriminate).
  assert (H0 : fits_int 0) by (split; vm_compute; discriminate).
  assert (H2 : fits_int 2) by (split; vm_compute; discriminate).
  destruct (selection_moves_and_stops threeJobs 5 eq_refl Hfit H0)
    as (Hdown & _).
  destruct (selection_moves_and_stops (set_selectedIdx threeJobs 2) 1
              eq_refl Hfit H2) as (_ & _ & _ & Hk & _).
  destruct (selection_moves_and_stops (set_selectedIdx threeJobs 2) 7
              eq_refl Hfit H2) as (_ & _ & Hup & _).
  split; [exact Hdown|]. split; [exact Hk | exact Hup].
Defined.

(* ================================================================== *)
(** * Further properties of the renderers *)

(** A row loop whose body succeeds on every index it visits succeeds. *)
Lemma forRange_Ok (body : Z -> go string) (end_ : Z) :
  end_ <= int_max ->
  forall (fuel : nat) (i : Z) (b : string),
    int_min <= i ->
    (forall j : Z, i <= j < end_ -> exists s : string, body j = Ok s) ->
    exists out : string, forRange fuel i end_ body b = Ok out.
Proof.
  intros Hend. induction fuel as [|k IH]; intros i b Hi Hbody;
    cbn [forRange]; [now exists b|].
  destruct (i <? end_) eqn:E; [|now exists b].
  destruct (Hbody i ltac:(lia)) as [s ->]. cbn [bind].
  rewrite int_add_small by zlia.
  apply IH; [zlia|]. intros j Hj. apply Hbody. lia.
Qed.

(** Whatever the selection, the rows [renderQueueView] visits are rows
    of the list. *)
Lemma queueWindow_inside (n v s : Z) :
  0 <= n <= int_max -> 3 <= v <= int_max ->
  0 <= fst (queueWindow n v s) /\ snd (queueWindow n v s) <= n.
Proof.
  intros Hn Hv. unfold queueWindow.
  destruct (n >? v) eqn:E; [|cbn; lia].
  set (start0 := int_sub s (int_div v 2)).
  set (start1 := if start0 <? 0 then 0 else start0).
  assert (H1 : 0 <= start1) by (unfold start1; destruct (start0 <? 0) eqn:E0; lia).
  destruct (int_add start1 v >? n) eqn:E2; cbn [fst snd].
  - rewrite int_sub_small by zlia. lia.
  - lia.
Qed.

Section RenderTotal.

Context {T : Terminal}.

Lemma renderJobLine_Ok (job : ReviewJob) :
  exists line : string, renderJobLine job = Ok line.
Proof.
  unfold renderJobLine.
  destruct (int_sub 8 (len (Status job)) >? 0) eqn:E.
  - unfold Repeat. destruct (int_sub 8 (len (Status job)) <? 0) eqn:E0; [lia|].
    cbn [bind]. eexists. reflexivity.
  - cbn [bind]. eexists. reflexivity.
Qed.

Lemma renderQueueView_rows_Ok (m : Model) (b : string) :
  jobs_fit m ->
  let w := queueWindow (llen (jobs m)) (visibleJobs (height m)) (selectedIdx m) in
  exists out : string,
    forRange (Z.to_nat (snd w - fst w)) (fst w) (snd w)
      (fun i =>
         job <- index (jobs m) i ;;
         line <- renderJobLine job ;;
         let line :=
           if i =? selectedIdx m then selectedStyle ("> " ++ line)
           else "  " ++ line in
         Ok (line ++ nl))
      b = Ok out.
Proof.
  intros Hfit w. unfold jobs_fit in Hfit.
  pose proof (Nat2Z.is_nonneg (List.length (jobs m))) as Hn0.
  fold (llen (jobs m)) in Hn0.
  destruct (queueWindow_inside (llen (jobs m)) (visibleJobs (height m))
              (selectedIdx m) ltac:(lia) (visibleJobs_bounds (height m)))
    as [Hs He]. fold w in Hs, He.
  apply forRange_Ok; [lia | zlia |].
  intros j Hj.
  destruct (index_in_range (jobs m) j ltac:(lia)) as [job ->]. cbn [bind].
  destruct (renderJobLine_Ok job) as [line ->]. cbn [bind].
  eexists. reflexivity.
Qed.

End RenderTotal.

Lemma renderQueueView_total_or_narrow {T : Terminal} (m : Model) :
  jobs_fit m ->
  (exists frame : string, renderQueueView m = Ok frame)
  \/ (renderQueueView m = Panic NegativeRepeatCount
      /\ jobs m <> [] /\ int_sub (width m) 4 < 0).
Proof.
  intros Hfit.
  assert (Hnil : llen (jobs m) = 0 <-> jobs m = []).
  { unfold llen. destruct (jobs m); cbn [List.length]; split; intros H;
      try reflexivity; try discriminate; lia. }
  unfold renderQueueView.
  destruct (Z.eqb_spec (llen (jobs m)) 0) as [E|E];
    [left; cbn [bind]; eexists; reflexivity|].
  unfold Repeat.
  destruct (Z.min (int_sub (width m) 4) 78 <? 0) eqn:Em.
  - right. split; [reflexivity|]. split; [|lia].
    intros H. apply Hnil in H. contradiction.
  - left. cbn [bind].
    pose proof (renderQueueView_rows_Ok m) as Hrows.
    destruct (queueWindow (llen (jobs m)) (visibleJobs (height m))
                (selectedIdx m)) as [start end_] eqn:Ew.
    cbn [fst snd] in Hrows.
    match goal with
    | |- context [forRange _ _ _ _ ?b] =>
        destruct (Hrows b Hfit) as [out ->]
    end.
    cbn [bind]. destruct (_ >? _); cbn [bind]; eexists; reflexivity.
Qed.

(** X8.  [renderQueueView] panics in one situation only: a non-empty
    job list on a terminal less than 4 columns wide, where the rule under
    the header asks [strings.Repeat] for a negative count.  With an empty
    list, or a width of at least 4, it returns a frame, whatever the
    selection and the height. *)
Theorem renderQueueView_panics_iff :
  forall (T : Terminal) (m : Model),
    jobs_fit m ->
    (jobs m = [] \/ 0 <= int_sub (width m) 4 ->
     exists frame : string, renderQueueView m = Ok frame)
    /\ (jobs m <> [] -> int_sub (width m) 4 < 0 ->
        renderQueueView m = Panic NegativeRepeatCount)
    /\ (int_min + 4 <= width m <= int_max ->
        int_sub (width m) 4 = width m - 4).
Proof.
  intros T m Hfit.
  destruct (renderQueueView_total_or_narrow m Hfit)
    as [Hok|(Hpanic & Hne & Hw)].
  - split; [intros _; exact Hok|]. split; [|intros Hw; int_small; reflexivity].
    intros Hne Hw. exfalso. destruct Hok as [frame Hok].
    revert Hok. unfold renderQueueView.
    destruct (Z.eqb_spec (llen (jobs m)) 0) as [E|E].
    + unfold llen in E. destruct (jobs m); [contradiction | cbn in E; lia].
    + unfold Repeat.
      destruct (Z.min (int_sub (width m) 4) 78 <? 0) eqn:Em; [|lia].
      discriminate.
  - split; [|split].
    + intros [Hnil|Hge]; [contradiction | lia].
    + intros _ _. exact Hpanic.
    + intros Hw'. int_small. reflexivity.
Qed.

Lemma renderQueueView_panics_iff_witness :
  (exists frame : string, @renderQueueView plainTerminal threeJobs = Ok frame)
  /\ @renderQueueView plainTerminal narrowQueue = Panic NegativeRepeatCount
  /\ (exists frame : string,
        @renderQueueView plainTerminal (set_width (NewModel "") 0) = Ok frame).
Proof.
  assert (Hfit : jobs_fit threeJobs) by (vm_compute; discriminate).
  assert (Hfit0 : jobs_fit (NewModel "")) by (vm_compute; discriminate).
  split; [|split].
  - apply (renderQueueView_panics_iff plainTerminal threeJobs Hfit).
    right. vm_compute. discriminate.
  - apply (renderQueueView_panics_iff plainTerminal narrowQueue Hfit).
    + discriminate.
    + vm_compute. reflexivity.
  - apply (renderQueueView_panics_iff plainTerminal
             (set_width (NewModel "") 0) Hfit0).
    left. reflexivity.
Defined.

(* ================================================================== *)
(** * Further properties of the text wrapper *)

Lemma len_nonneg (s : string) : 0 <= len s.
Proof. unfold len. lia. Qed.

Lemma effectiveWidth_bounds (width : Z) :
  width <= int_max -> 1 <= effectiveWidth width <= int_max.
Proof.
  intros H. unfold effectiveWidth.
  destruct (width <=? 0) eqn:E; [vm_compute; split; discriminate | lia].
Qed.

Lemma wrapText_effective (text : string) (width : Z) :
  wrapText text width = flat_map (wrapLine (effectiveWidth width)) (Split text).
Proof. apply wrapText_lines. Qed.

Lemma no_newline_take (n : nat) (s : string) :
  no_newline s = true -> no_newline (take n s) = true.
Proof.
  revert s. induction n as [|k IH]; intros [|c r] H; cbn in *; auto.
  apply andb_prop in H as [Hc Hr]. now rewrite Hc, IH.
Qed.

Lemma no_newline_drop (n : nat) (s : string) :
  no_newline s = true -> no_newline (drop n s) = true.
Proof.
  revert s. induction n as [|k IH]; intros [|c r] H; cbn in *; auto.
  apply andb_prop in H as [Hc Hr]. now apply IH.
Qed.

Lemma no_newline_TrimLeft (s : string) :
  no_newline s = true -> no_newline (TrimLeft s) = true.
Proof.
  induction s as [|c r IH]; intros H; cbn [TrimLeft]; [reflexivity|].
  destruct (Ascii.eqb c space); [|exact H].
  cbn in H. apply andb_prop in H as [_ Hr]. auto.
Qed.

Lemma Split_no_newline (s : string) :
  Forall (fun l => no_newline l = true) (Split s).
Proof.
  induction s as [|c r IH]; cbn [Split]; [repeat constructor|].
  destruct (Ascii.eqb c newline) eqn:E; [constructor; [reflexivity|exact IH]|].
  destruct (Split r) as [|h t].
  - constructor; [cbn [no_newline]; now rewrite E | constructor].
  - inversion IH as [|? ? Hh Ht]; subst.
    constructor; [cbn [no_newline]; now rewrite E, Hh | exact Ht].
Qed.

Lemma no_space_is_space_at (s : string) (i : Z) :
  no_space s = true -> is_space_at s i = false.
Proof.
  unfold is_space_at, byte_at. destruct (i <? 0); [reflexivity|].
  generalize (Z.to_nat i) as n. induction s as [|c r IH]; intros n H;
    [reflexivity|].
  cbn in H. apply andb_prop in H as [Hc Hr].
  destruct n as [|n]; cbn [String.get].
  - now apply negb_true_iff in Hc.
  - now apply IH.
Qed.

Lemma no_space_drop (n : nat) (s : string) :
  no_space s = true -> no_space (drop n s) = true.
Proof.
  revert s. induction n as [|k IH]; intros [|c r] H; cbn in *; auto.
  apply andb_prop in H as [Hc Hr]. now apply IH.
Qed.

Lemma no_space_TrimLeft (s : string) : no_space s = true -> TrimLeft s = s.
Proof.
  destruct s as [|c r]; intros H; cbn in *; [reflexivity|].
  apply andb_prop in H as [Hc _]. apply negb_true_iff in Hc. now rewrite Hc.
Qed.

Section WrapperShapes.

Variable width : Z.
Hypothesis width_pos : 1 <= width.
Hypothesis width_int : width <= int_max.

Lemma wrapLong_fit :
  forall (fuel : nat) (line : string),
    Forall (fun l => len l <= width) (wrapLong fuel line width).
Proof.
  induction fuel as [|k IH]; intros line; cbn [wrapLong]; [constructor|].
  destruct (len line >? width) eqn:E.
  - constructor; [|apply IH].
    pose proof (breakPoint_bounds width width_pos width_int line) as Hb.
    unfold slice_to, len. rewrite length_take. lia.
  - destruct (len line >? 0); repeat constructor. lia.
Qed.

Lemma wrapLine_fit (line : string) :
  Forall (fun l => len l <= width) (wrapLine width line).
Proof.
  unfold wrapLine, wrapLoop. destruct (len line <=? width) eqn:E.
  - repeat constructor. lia.
  - apply wrapLong_fit.
Qed.

Lemma wrapLong_no_newline :
  forall (fuel : nat) (line : string),
    no_newline line = true ->
    Forall (fun l => no_newline l = true) (wrapLong fuel line width).
Proof.
  induction fuel as [|k IH]; intros line H; cbn [wrapLong]; [constructor|].
  destruct (len line >? width).
  - constructor; [now apply no_newline_take|].
    apply IH. now apply no_newline_TrimLeft, no_newline_drop.
  - destruct (len line >? 0); repeat constructor. exact H.
Qed.

Lemma wrapLine_no_newline (line : string) :
  no_newline line = true ->
  Forall (fun l => no_newline l = true) (wrapLine width line).
Proof.
  intros H. unfold wrapLine, wrapLoop. destruct (len line <=? width).
  - repeat constructor. exact H.
  - now apply wrapLong_no_newline.
Qed.

(** A line without a space is cut every [width] bytes. *)
Lemma wrapLong_no_space :
  forall (fuel : nat) (line : string),
    no_space line = true ->
    (String.length line < fuel)%nat ->
    concat (wrapLong fuel line width) = line
    /\ Forall (fun l => len l = width) (removelast (wrapLong fuel line width))
    /\ Forall (fun l => 0 < len l) (wrapLong fuel line width).
Proof.
  induction fuel as [|k IH]; intros line Hns Hfuel; [lia|].
  cbn [wrapLong]. destruct (len line >? width) eqn:E.
  - assert (Hbp : breakPoint line width = width).
    { destruct (breakPoint_spec width width_pos width_int line)
        as [(Hsp & _)|[Hbp _]]; [|exact Hbp].
      rewrite no_space_is_space_at in Hsp by exact Hns. discriminate. }
    rewrite Hbp. unfold slice_from.
    rewrite no_space_TrimLeft by (now apply no_space_drop).
    pose proof (length_drop (Z.to_nat width) line) as Hld.
    assert (Hshorter : (String.length (drop (Z.to_nat width) line) < k)%nat)
      by (unfold len in E; lia).
    destruct (IH (drop (Z.to_nat width) line)
                (no_space_drop _ _ Hns) Hshorter) as (Hc & Hw & Hp).
    assert (Hne : wrapLong k (drop (Z.to_nat width) line) width <> []).
    { destruct k as [|k']; [lia|]. cbn [wrapLong].
      destruct (len (drop (Z.to_nat width) line) >? width); [discriminate|].
      destruct (len (drop (Z.to_nat width) line) >? 0) eqn:E0;
        [discriminate|]. unfold len in *. lia. }
    assert (Htake : len (slice_to line width) = width).
    { unfold slice_to, len. rewrite length_take. unfold len in E. lia. }
    split; [|split].
    + cbn [concat]. rewrite Hc. apply take_drop.
    + destruct (wrapLong k (drop (Z.to_nat width) line) width) as [|c cs] eqn:Ew;
        [contradiction|].
      change (removelast (slice_to line width :: c :: cs))
        with (slice_to line width :: removelast (c :: cs)).
      constructor; [exact Htake | exact Hw].
    + constructor; [lia | exact Hp].
  - destruct (len line >? 0) eqn:E0; cbn [concat removelast].
    + split; [apply append_nil_r|]. split; repeat constructor. lia.
    + split; [|split; constructor].
      symmetry. apply length_zero. unfold len in E0. lia.
Qed.

End WrapperShapes.

Lemma wrapLine_not_nil (width : Z) (line : string) : wrapLine width line <> [].
Proof.
  unfold wrapLine, wrapLoop. destruct (len line <=? width) eqn:E;
    [discriminate|].
  cbn [wrapLong]. destruct (len line >? width) eqn:E1; [discriminate | lia].
Qed.

Lemma flat_map_length_ge {A B : Type} (f : A -> list B) (l : list A) :
  (forall a, f a <> []) ->
  (List.length l <= List.length (flat_map f l))%nat.
Proof.
  intros Hf. induction l as [|a l IH]; cbn; [lia|].
  rewrite length_app. specialize (Hf a).
  destruct (f a); [contradiction | cbn; lia].
Qed.

(** X9.  No display line is wider than the width: every line
    [wrapText] returns has at most [width] bytes (at most 100 when the
    given width is not positive) and holds no line break. *)
Theorem wrapText_lines_fit :
  forall (text : string) (width : Z),
    width <= int_max ->
    Forall (fun l => len l <= effectiveWidth width
                     /\ no_newline l = true)
           (wrapText text width).
Proof.
  intros text width Hint.
  destruct (effectiveWidth_bounds width Hint) as [Hpos Hmax].
  rewrite wrapText_effective. apply Forall_flat_map.
  pose proof (Split_no_newline text) as Hsplit.
  induction Hsplit as [|line rest Hline _ IH]; constructor; [|exact IH].
  pose proof (wrapLine_fit _ Hpos Hmax line) as Hfit.
  pose proof (wrapLine_no_newline (effectiveWidth width) line Hline) as Hnl.
  induction Hfit as [|c cs Hc _ IHc]; [constructor|].
  inversion Hnl; subst. constructor; auto.
Qed.

Lemma wrapText_lines_fit_witness :
  Forall (fun l => len l <= 7 /\ no_newline l = true)
         (wrapText (sampleText ++ nl ++ sampleLine) 7).
Proof.
  apply (wrapText_lines_fit (sampleText ++ nl ++ sampleLine) 7).
  vm_compute. discriminate.
Defined.

Lemma wrapText_length_ge (text : string) (width : Z) :
  1 <= llen (Split text) <= llen (wrapText text width).
Proof.
  rewrite wrapText_effective. unfold llen.
  pose proof (flat_map_length_ge (wrapLine (effectiveWidth width))
                (Split text) (wrapLine_not_nil _)) as Hge.
  pose proof (Split_not_nil text) as Hne.
  destruct (Split text); [contradiction|]. cbn [List.length] in *. lia.
Qed.

(** X10.  [wrapText] never returns an empty slice: every line of the
    input, empty or not, gives at least one display line, so the output
    has at least as many lines as the input, and at least one. *)
Theorem wrapText_at_least_one_line :
  forall (text : string) (width : Z),
    1 <= llen (Split text) <= llen (wrapText text width).
Proof.
  intros text width. apply wrapText_length_ge.
Qed.

(** X11.  Text that fits is left alone: when every line of the input has
    at most [width] bytes (100 when the given width is not positive),
    [wrapText] returns the lines of the input, and joining them with line
    breaks gives the input back. *)
Theorem wrapText_fitting_text_unchanged :
  forall (text : string) (width : Z),
    Forall (fun l => len l <= effectiveWidth width) (Split text) ->
    wrapText text width = Split text
    /\ Join (wrapText text width) = text.
Proof.
  intros text width Hfit.
  assert (H : wrapText text width = Split text).
  { rewrite wrapText_effective.
    induction Hfit as [|line rest Hline _ IH]; [reflexivity|].
    cbn [flat_map]. rewrite IH. unfold wrapLine.
    destruct (len line <=? effectiveWidth width) eqn:E; [reflexivity | lia]. }
  split; [exact H|]. rewrite H. apply Join_Split.
Qed.

Lemma wrapText_fitting_text_unchanged_witness :
  wrapText shortNote 80 = ["LGTM"; ""; "ship it"]
  /\ Join (wrapText shortNote 80) = shortNote.
Proof.
  destruct (wrapText_fitting_text_unchanged shortNote 80) as [Hlines Hjoin].
  - repeat constructor; vm_compute; discriminate.
  - split; [rewrite Hlines; reflexivity | exact Hjoin].
Defined.

(** X12.  A line without a single space is cut every [width] bytes and
    loses nothing: the display lines concatenated are the line, each of
    them but the last has exactly [width] bytes, and none is empty. *)
Theorem wrapLine_without_space :
  forall (line : string) (width : Z),
    1 <= width <= int_max ->
    no_space line = true ->
    line <> "" ->
    concat (wrapLine width line) = line
    /\ Forall (fun l => len l = width) (removelast (wrapLine width line))
    /\ Forall (fun l => 0 < len l <= width) (wrapLine width line).
Proof.
  intros line width [Hpos Hint] Hns Hne.
  assert (Hlen : 0 < len line).
  { unfold len. destruct line; [contradiction | cbn; lia]. }
  pose proof (wrapLine_fit width Hpos Hint line) as Hfit.
  unfold wrapLine, wrapLoop in *. destruct (len line <=? width) eqn:E.
  - cbn [concat removelast]. split; [apply append_nil_r|].
    split; repeat constructor; lia.
  - destruct (wrapLong_no_space width Hpos Hint (S (String.length line))
                line Hns ltac:(lia)) as (Hc & Hw & Hp).
    split; [exact Hc|]. split; [exact Hw|].
    revert Hfit Hp. generalize (wrapLong (S (String.length line)) line width).
    induction l as [|c cs IH]; intros Hfit Hp; [constructor|].
    inversion Hfit; inversion Hp; subst. constructor; [lia | auto].
Qed.

Lemma wrapLine_without_space_witness :
  wrapLine 10 longWord = ["abcdefghij"; "klmnopqrst"; "uvwxyz"]
  /\ concat (wrapLine 10 longWord) = longWord
  /\ Forall (fun l => len l = 10) (removelast (wrapLine 10 longWord)).
Proof.
  destruct (wrapLine_without_space longWord 10) as (Hc & Hw & _).
  - split; [lia | vm_compute; discriminate].
  - reflexivity.
  - discriminate.
  - split; [reflexivity|]. split; [exact Hc | exact Hw].
Defined.

(* ================================================================== *)
(** * Further properties of the review pager *)

Lemma index_skipn {A : Type} (l : list A) (i : Z) :
  0 <= i < llen l ->
  exists a : A,
    index l i = Ok a
    /\ skipn (Z.to_nat i) l = a :: skipn (S (Z.to_nat i)) l.
Proof.
  intros Hi. destruct (index_in_range l i Hi) as [a Ha]. exists a.
  split; [exact Ha|].
  unfold index in Ha.
  destruct ((i <? 0) || (i >=? llen l)); [discriminate|].
  destruct (nth_error l (Z.to_nat i)) as [x|] eqn:En; [|discriminate].
  injection Ha as ->. revert En. generalize (Z.to_nat i) as n. clear.
  intros n. revert l. induction n as [|n IH]; intros [|x l] En;
    try discriminate; cbn in *.
  - now injection En as ->.
  - now apply IH.
Qed.

(** The row loop of the review screen writes [lines[start:end]], each
    followed by a line break. *)
Lemma forRange_lines (lines : list string) (end_ : Z) :
  end_ <= llen lines -> end_ <= int_max ->
  forall (k : nat) (i : Z) (b : string),
    0 <= i -> k = Z.to_nat (end_ - i) ->
    forRange k i end_ (fun i => line <- index lines i ;; Ok (line ++ nl)) b
    = Ok (b ++ concat (map (fun l => l ++ nl) (shownLines lines i end_))).
Proof.
  intros Hend Hmax. unfold shownLines.
  induction k as [|k IH]; intros i b Hi Hk.
  - rewrite <- Hk. cbn. now rewrite append_nil_r.
  - cbn [forRange]. destruct (i <? end_) eqn:E; [|lia].
    destruct (index_skipn lines i ltac:(lia)) as (a & -> & Hskip).
    cbn [bind]. rewrite int_add_small by zlia.
    rewrite (IH (i + 1) (b ++ (a ++ nl)) ltac:(lia) ltac:(lia)).
    rewrite <- Hk, Hskip. cbn [firstn map concat].
    replace (Z.to_nat (end_ - (i + 1))) with k by lia.
    replace (Z.to_nat (i + 1)) with (S (Z.to_nat i)) by lia.
    now rewrite !append_assoc.
Qed.

(** X13.  The review screen shows at least one line and never more than
    the viewport holds, however far the operator has scrolled: with
    [n >= 1] display lines and room for [visibleLines >= 1] of them, the
    first line shown is the stored offset, or the last line when the
    offset is past the end, and the lines shown are the
    [min visibleLines (n - start)] lines from there. *)
Theorem review_pager_window :
  forall (m : Model) (r : Review),
    let n := totalWrappedLines m r in
    let start := reviewStart (reviewScroll m) n in
    let end_ := reviewEnd start (visibleLines m) n in
    0 <= reviewScroll m ->
    1 <= visibleLines m ->
    n + visibleLines m <= int_max ->
    1 <= n
    /\ 0 <= start <= n - 1
    /\ start < end_ <= n
    /\ end_ - start = Z.min (visibleLines m) (n - start)
    /\ (reviewScroll m < n -> start = reviewScroll m)
    /\ (n <= reviewScroll m -> start = n - 1 /\ end_ = n).
Proof.
  intros m r n start end_ Hs Hvis Hsum.
  assert (Hn : 1 <= n).
  { pose proof (wrapText_length_ge (Output r) (wrapWidth m)).
    unfold n, totalWrappedLines. lia. }
  split; [exact Hn|].
  assert (Hstart : start = if reviewScroll m >=? n then n - 1
                           else reviewScroll m).
  { unfold start, reviewStart. destruct (reviewScroll m >=? n); [|reflexivity].
    int_small. lia. }
  assert (Hend : end_ = Z.min (start + visibleLines m) n).
  { unfold end_, reviewEnd. rewrite int_add_small; [reflexivity|].
    rewrite Hstart. destruct (reviewScroll m >=? n) eqn:E; zlia. }
  rewrite Hend, Hstart.
  destruct (reviewScroll m >=? n) eqn:E; repeat split; lia.
Qed.

Lemma review_pager_window_witness :
  totalWrappedLines scrolledFar longReview = 40
  /\ reviewStart (reviewScroll scrolledFar) 40 = 39
  /\ reviewEnd 39 (visibleLines scrolledFar) 40 = 40.
Proof.
  assert (Hn : totalWrappedLines scrolledFar longReview = 40)
    by (vm_compute; reflexivity).
  destruct (review_pager_window scrolledFar longReview)
    as (_ & _ & _ & _ & _ & Hpast).
  - vm_compute. discriminate.
  - vm_compute. discriminate.
  - vm_compute. discriminate.
  - rewrite Hn in Hpast. destruct Hpast as [Hstart Hend];
      [vm_compute; discriminate|].
    split; [exact Hn|]. split; [exact Hstart|].
    rewrite Hstart in Hend. exact Hend.
Defined.

Lemma renderReviewView_total {T : Terminal} (m : Model) (r : Review) :
  currentReview m = Some r ->
  0 <= reviewScroll m ->
  totalWrappedLines m r <= int_max ->
  renderReviewView m
  = Ok (titleStyle (reviewTitle r) ++ nl
          ++ concat (map (fun l => l ++ nl)
                         (shownLines (wrapText (Output r) (wrapWidth m))
                            (reviewStart (reviewScroll m) (totalWrappedLines m r))
                            (reviewEnd
                               (reviewStart (reviewScroll m)
                                  (totalWrappedLines m r))
                               (visibleLines m) (totalWrappedLines m r))))
          ++ (if totalWrappedLines m r >? visibleLines m
              then statusStyle
                     (reviewScrollInfo
                        (reviewStart (reviewScroll m) (totalWrappedLines m r))
                        (reviewEnd
                           (reviewStart (reviewScroll m)
                              (totalWrappedLines m r))
                           (visibleLines m) (totalWrappedLines m r))
                        (totalWrappedLines m r)) ++ nl
              else "")
          ++ helpStyle "up/down: scroll | esc/q: back").
Proof.
  intros Hr Hs Hn.
  set (lines := wrapText (Output r) (wrapWidth m)).
  change (totalWrappedLines m r) with (llen lines) in *.
  set (n := llen lines) in *.
  set (start := reviewStart (reviewScroll m) n).
  set (end_ := reviewEnd start (visibleLines m) n).
  assert (Hn0 : 0 <= n) by (unfold n, llen; lia).
  destruct (reviewStart_in_content (reviewScroll m) n Hs Hn0 Hn)
    as [Hstart0 _]. fold start in Hstart0.
  assert (Hend : end_ <= n) by (unfold end_, reviewEnd; lia).
  unfold renderReviewView. rewrite Hr. fold lines. fold n. fold start.
  fold end_.
  rewrite (forRange_lines lines end_ Hend ltac:(lia)
             (Z.to_nat (end_ - start)) start _ Hstart0 eq_refl).
  cbn [bind]. f_equal.
  assert (Htitle :
    "" ++ titleStyle (reviewTitle r)
    = match Job r with
      | Some job =>
          "" ++ titleStyle
                 ("Review: "
                    ++ (if len (GitRef job) >? 17
                        then slice_to (GitRef job) 17 else GitRef job)
                    ++ " (" ++ ReviewAgent r ++ ")")
      | None => "" ++ titleStyle "Review"
      end).
  { unfold reviewTitle, refColumn. destruct (Job r); reflexivity. }
  rewrite <- Htitle. cbn [append].
  destruct (n >? visibleLines m); rewrite ?append_assoc, ?append_nil_r;
    reflexivity.
Qed.

(** X14.  With a review held and a stored offset that is not negative,
    [renderReviewView] does not panic, and its frame is: the styled
    title, a line break, the display lines [start .. end-1] of the
    wrapped output (each followed by a line break), the styled footer
    ["[start+1-end of n lines]"] when there are more lines than the
    viewport holds, and the styled help line. *)
Theorem renderReviewView_frame :
  forall (T : Terminal) (m : Model) (r : Review),
    currentReview m = Some r ->
    0 <= reviewScroll m ->
    totalWrappedLines m r <= int_max ->
    let lines := wrapText (Output r) (wrapWidth m) in
    let n := llen lines in
    let start := reviewStart (reviewScroll m) n in
    let end_ := reviewEnd start (visibleLines m) n in
    renderReviewView m
    = Ok (titleStyle (reviewTitle r) ++ nl
            ++ concat (map (fun l => l ++ nl) (shownLines lines start end_))
            ++ (if n >? visibleLines m
                then statusStyle (reviewScrollInfo start end_ n) ++ nl
                else "")
            ++ helpStyle "up/down: scroll | esc/q: back").
Proof.
  intros T m r Hr Hs Hn lines n start end_.
  apply (renderReviewView_total m r Hr Hs Hn).
Qed.

Lemma renderReviewView_frame_witness :
  @renderReviewView plainTerminal scrolledFar
  = Ok ("Review: 0123456789abcdef0 (codex)" ++ nl
          ++ "remark 40" ++ nl
          ++ "[40-40 of 40 lines]" ++ nl
          ++ "up/down: scroll | esc/q: back").
Proof.
  rewrite (renderReviewView_frame plainTerminal scrolledFar longReview).
  - vm_compute. reflexivity.
  - reflexivity.
  - vm_compute. discriminate.
  - vm_compute. discriminate.
Defined.

Lemma renderQueueView_narrow {T : Terminal} (m : Model) :
  jobs m <> [] -> int_sub (width m) 4 < 0 ->
  renderQueueView m = Panic NegativeRepeatCount.
Proof.
  intros Hne Hw. unfold renderQueueView.
  destruct (Z.eqb_spec (llen (jobs m)) 0) as [E|E].
  - unfold llen in E. destruct (jobs m); [contradiction | cbn in E; lia].
  - unfold Repeat.
    destruct (Z.min (int_sub (width m) 4) 78 <? 0) eqn:Em; [|lia].
    reflexivity.
Qed.

(** X15.  Every model the event loop reaches renders, with one
    exception.  From the initial model, after at most [int_max]
    messages, [View] panics (a negative repeat count) when it draws the
    queue screen with a non-empty job list on a terminal less than 4
    columns wide, and returns a frame in every other case. *)
Theorem View_of_reachable_model :
  forall (T : Terminal) (addr : string) (msgs : list Msg),
    Forall Msg_wf msgs -> llen msgs <= int_max ->
    exists m : Model,
      run (NewModel addr) msgs = Ok m
      /\ ((forall r : Review,
             currentReview m = Some r -> totalWrappedLines m r <= int_max) ->
          (exists frame : string, View m = Ok frame)
          \/ (View m = Panic NegativeRepeatCount
              /\ View m = renderQueueView m
              /\ jobs m <> []
              /\ int_sub (width m) 4 < 0))
      /\ (currentView m = viewQueue \/ currentReview m = None ->
          jobs m <> [] -> int_sub (width m) 4 < 0 ->
          View m = Panic NegativeRepeatCount)
      /\ ((forall r : Review,
             currentReview m = Some r -> totalWrappedLines m r <= int_max) ->
          ~ ((currentView m = viewQueue \/ currentReview m = None)
             /\ jobs m <> [] /\ int_sub (width m) 4 < 0) ->
          exists frame : string, View m = Ok frame).
Proof.
  intros T addr msgs Hwf Hlen.
  destruct (NewModel_selection_ok addr) as [Hsel Hfit].
  destruct (run_keeps_selection msgs Hwf (NewModel addr) Hfit Hsel)
    as (m & Hrun & _ & Hfit').
  exists m. split; [exact Hrun|].
  pose proof (run_scroll_bound msgs (NewModel addr) m 0 Hrun
                ltac:(cbn; lia) ltac:(lia)) as [Hs _].
  assert (Hqueue :
    (exists frame : string, renderQueueView m = Ok frame)
    \/ (renderQueueView m = Panic NegativeRepeatCount
        /\ jobs m <> [] /\ int_sub (width m) 4 < 0)).
  { destruct (renderQueueView_total_or_narrow m Hfit') as [H|H]; auto. }
  assert (Hdrawn : currentView m = viewQueue \/ currentReview m = None ->
                   View m = renderQueueView m).
  { unfold View. intros [Hq|Hn]; [rewrite Hq; reflexivity|].
    rewrite Hn. destruct (currentView m); reflexivity. }
  split; [|split].
  - intros Hlines. unfold View.
    destruct (currentView m); cbn [view_eqb andb].
    + destruct Hqueue as [H|(H1 & H2 & H3)]; [now left | right; auto].
    + destruct (currentReview m) as [r|] eqn:Hr; cbn [not_nil].
      * left. eexists.
        apply (renderReviewView_total m r Hr Hs (Hlines r eq_refl)).
      * destruct Hqueue as [H|(H1 & H2 & H3)]; [now left | right; auto].
  - intros Hd Hne Hw. rewrite (Hdrawn Hd).
    now apply renderQueueView_narrow.
  - intros Hlines Hnot.
    destruct (currentView m) eqn:Hv.
    + rewrite Hdrawn by now left.
      destruct Hqueue as [H|(H1 & H2 & H3)]; [exact H|].
      exfalso. apply Hnot. auto.
    + destruct (currentReview m) as [r|] eqn:Hr.
      * unfold View. rewrite Hv, Hr. cbn [view_eqb not_nil andb].
        eexists. apply (renderReviewView_total m r Hr Hs (Hlines r eq_refl)).
      * rewrite Hdrawn by now right.
        destruct Hqueue as [H|(H1 & H2 & H3)]; [exact H|].
        exfalso. apply Hnot. auto.
Qed.

Lemma View_of_reachable_model_witness :
  match run (NewModel "") scrollPastEnd with
  | Ok m => exists frame : string, @View plainTerminal m = Ok frame
  | Panic _ => False
  end
  /\ match run (NewModel "") shrinkToThree with
     | Ok m => @View plainTerminal m = Panic NegativeRepeatCount
     | Panic _ => False
     end.
Proof.
  split.
  - destruct (View_of_reachable_model plainTerminal "" scrollPastEnd)
      as (m & Hrun & Hview & _).
    + unfold scrollPastEnd. repeat constructor. vm_compute. discriminate.
    + vm_compute. discriminate.
    + rewrite Hrun. vm_compute in Hrun. injection Hrun as <-.
      destruct Hview as [Hok|(Hpanic & _)].
      * intros r Hr. injection Hr as <-. vm_compute. discriminate.
      * exact Hok.
      * vm_compute in Hpanic. discriminate.
  - destruct (View_of_reachable_model plainTerminal "" shrinkToThree)
      as (m & Hrun & _ & Hnarrow & _).
    + unfold shrinkToThree. repeat constructor; vm_compute; discriminate.
    + vm_compute. discriminate.
    + rewrite Hrun. vm_compute in Hrun. injection Hrun as <-.
      apply Hnarrow; [now left | discriminate | vm_compute; reflexivity].
Defined.

(* ================================================================== *)
(** * Further properties of the job rows *)

Lemma prefix_take (n : nat) (s : string) : String.prefix (take n s) s = true.
Proof.
  revert s. induction n as [|k IH]; intros [|c r]; cbn; try reflexivity.
  destruct (ascii_dec c c) as [_|Hne]; [apply IH | contradiction].
Qed.

Lemma prefix_refl (s : string) : String.prefix s s = true.
Proof.
  induction s as [|c r IH]; cbn; [reflexivity|].
  destruct (ascii_dec c c) as [_|Hne]; [exact IH | contradiction].
Qed.

Lemma len_slice_to (s : string) (hi : Z) :
  0 <= hi -> len (slice_to s hi) = Z.min hi (len s).
Proof. intros H. unfold len, slice_to. rewrite length_take. lia. Qed.

Lemma len_append (a b : string) : len (a ++ b) = len a + len b.
Proof.
  unfold len. induction a as [|c r IH]; cbn [append String.length]; lia.
Qed.

(** X16.  A job row never panics, and its text columns are cut to their
    widths by bytes: the git reference to its first 17 bytes, the agent
    name to its first 12, and a repository name longer than 15 bytes to
    its first 12 bytes followed by ["..."] (15 bytes in all); a field
    within its width is shown whole. *)
Theorem renderJobLine_columns :
  forall (T : Terminal) (job : ReviewJob),
    len (Status job) <= int_max ->
    renderJobLine job
    = Ok (padInt 4 (ID job) ++ " " ++ padRunes 17 (refColumn job) ++ " "
            ++ padRunes 15 (repoColumn job) ++ " "
            ++ padRunes 12 (agentColumn job) ++ " "
            ++ statusColumn job ++ " " ++ elapsedColumn job)
    /\ len (refColumn job) = Z.min 17 (len (GitRef job))
    /\ HasPrefix (GitRef job) (refColumn job) = true
    /\ len (agentColumn job) = Z.min 12 (len (Agent job))
    /\ HasPrefix (Agent job) (agentColumn job) = true
    /\ len (repoColumn job) = Z.min 15 (len (RepoName job))
    /\ (len (RepoName job) <= 15 -> repoColumn job = RepoName job)
    /\ (15 < len (RepoName job) ->
        repoColumn job = slice_to (RepoName job) 12 ++ "...").
Proof.
  intros T job Hst.
  pose proof (len_nonneg (Status job)) as Hst0.
  split.
  - unfold renderJobLine, statusColumn, elapsedColumn, refColumn, repoColumn,
      agentColumn.
    rewrite int_sub_small by zlia.
    destruct (8 - len (Status job) >? 0) eqn:E.
    + unfold Repeat.
      destruct (8 - len (Status job) <? 0) eqn:E0; [lia|].
      cbn [bind]. reflexivity.
    + cbn [bind]. replace (Z.to_nat (8 - len (Status job))) with O by lia.
      cbn [repeat_nat]. rewrite append_nil_r. reflexivity.
  - unfold refColumn, agentColumn, repoColumn, HasPrefix.
    pose proof (len_nonneg (GitRef job)).
    pose proof (len_nonneg (Agent job)).
    pose proof (len_nonneg (RepoName job)).
    destruct (len (GitRef job) >? 17) eqn:E1;
      destruct (len (Agent job) >? 12) eqn:E2;
      destruct (len (RepoName job) >? 15) eqn:E3;
      rewrite ?len_append, ?len_slice_to by lia;
      unfold slice_to; rewrite ?prefix_take, ?prefix_refl;
      change (len "...") with 3;
      repeat split; try reflexivity; try lia.
Qed.

Lemma renderJobLine_columns_witness :
  @renderJobLine plainTerminal job9
  = Ok "9    0123456789abcdef0 a-very-long-... claude-code- done     65s"
  /\ refColumn job9 = "0123456789abcdef0"
  /\ repoColumn job9 = "a-very-long-..."
  /\ agentColumn job9 = "claude-code-".
Proof.
  destruct (renderJobLine_columns plainTerminal job9) as (Hline & _).
  - vm_compute. discriminate.
  - split; [rewrite Hline; vm_compute; reflexivity|]. repeat split.
Defined.

(* ================================================================== *)
(** * Properties of the prompt builder *)

Lemma firstn_S_nth_error {A : Type} (l : list A) (i : nat) (x : A) :
  nth_error l i = Some x -> firstn (S i) l = (firstn i l ++ [x])%list.
Proof.
  revert l. induction i as [|i IH]; intros [|y l] H; try discriminate.
  - cbn in H. injection H as ->. reflexivity.
  - cbn [nth_error] in H. change (firstn (S (S i)) (y :: l))
      with (y :: firstn (S i) l). rewrite (IH l H). reflexivity.
Qed.

Lemma concat_map_app {A : Type} (f : A -> string) (a b : list A) :
  concat (map f (a ++ b)%list) = concat (map f a) ++ concat (map f b).
Proof. rewrite map_app. apply concat_app. Qed.

Lemma writeContextsDown_spec (contexts : list ReviewContext) :
  forall (n : nat) (sb : string),
    (n <= List.length contexts)%nat ->
    writeContextsDown contexts n sb
    = sb ++ concat (map reviewSection (rev (firstn n contexts))).
Proof.
  induction n as [|i IH]; intros sb Hn; cbn [writeContextsDown].
  - cbn. now rewrite append_nil_r.
  - destruct (nth_error contexts i) as [ctx|] eqn:E.
    + rewrite IH by lia. rewrite (firstn_S_nth_error _ _ _ E).
      rewrite rev_app_distr. cbn [rev app map concat].
      now rewrite append_assoc.
    + apply nth_error_None in E. lia.
Qed.

Lemma fold_left_snoc {A B : Type} (f : B -> A) (l : list B) :
  fold_left (fun acc x => (acc ++ [f x])%list) l [] = map f l.
Proof.
  rewrite (fold_left_append (fun x => [f x]) l []). cbn [app].
  induction l as [|x l IH]; cbn; [reflexivity | now rewrite IH].
Qed.

Lemma fold_left_write {A : Type} (f : A -> string) (l : list A) (sb : string) :
  fold_left (fun sb x => sb ++ f x) l sb = sb ++ concat (map f l).
Proof.
  revert sb. induction l as [|x l IH]; intros sb; cbn [fold_left map concat].
  - now rewrite append_nil_r.
  - rewrite IH. now rewrite append_assoc.
Qed.

Lemma len_shortSHA (sha : string) : len (shortSHA sha) = Z.min 7 (len sha).
Proof.
  unfold shortSHA. pose proof (len_nonneg sha).
  destruct (len sha >? 7) eqn:E; [rewrite len_slice_to by lia|]; lia.
Qed.

Lemma writePreviousReviews_eq (sb : string) (contexts : list ReviewContext) :
  writePreviousReviews sb contexts = sb ++ previousReviews contexts.
Proof.
  unfold writePreviousReviews, previousReviews.
  rewrite writeContextsDown_spec by lia.
  rewrite firstn_all. now rewrite !append_assoc.
Qed.

(** X17.  [writePreviousReviews] appends to what the builder holds, and
    writes the contexts last to first: the header, a line break, and one
    section per context starting from the last element of the slice (the
    oldest commit), each with the first 7 bytes of its SHA and either the
    review's output or ["No review available."]. *)
Theorem writePreviousReviews_oldest_first :
  forall (sb : string) (contexts : list ReviewContext),
    writePreviousReviews sb contexts
    = sb ++ PreviousReviewsHeader ++ nl
        ++ concat (map reviewSection (rev contexts)).
Proof.
  intros sb contexts. apply writePreviousReviews_eq.
Qed.

Section PromptFacts.

Context {G : Git}.

Lemma getPreviousReviewContexts_eq (db : DB) (repoPath sha : string)
      (count : Z) :
  getPreviousReviewContexts db repoPath sha count
  = match GetParentCommits repoPath sha count with
    | Failure err => Failure ("get parent commits: " ++ err)
    | Success parentSHAs => Success (map (contextOf db) parentSHAs)
    end.
Proof.
  unfold getPreviousReviewContexts.
  destruct (GetParentCommits repoPath sha count) as [parents|err];
    [|reflexivity].
  f_equal. rewrite <- (fold_left_snoc (contextOf db) parents).
  assert (H : forall acc : list ReviewContext,
             fold_left
               (fun contexts parentSHA =>
                  let ctx := {| SHA := parentSHA; CtxReview := None |} in
                  let ctx :=
                    match db parentSHA with
                    | Success review =>
                        {| SHA := SHA ctx; CtxReview := review |}
                    | Failure _ => ctx
                    end in
                  (contexts ++ [ctx])%list)
               parents acc
             = fold_left (fun acc x => (acc ++ [contextOf db x])%list)
                         parents acc).
  { induction parents as [|p ps IH]; intros acc; [reflexivity|].
    cbn [fold_left]. rewrite IH. f_equal. f_equal. f_equal.
    unfold contextOf. destruct (db p); reflexivity. }
  apply H.
Qed.

(** What [buildSinglePrompt] and [buildRangePrompt] add between the
    system prompt and the commit section. *)
Lemma previous_section (b : Builder) (repoPath sha : string)
      (contextCount : Z) (sb : string) :
  match db b with
  | Some db =>
      if contextCount >? 0 then
        match getPreviousReviewContexts db repoPath sha contextCount with
        | Failure _ => sb
        | Success contexts =>
            if llen contexts >? 0 then writePreviousReviews sb contexts
            else sb
        end
      else sb
  | None => sb
  end
  = sb ++ match db b with
          | Some db =>
              if contextCount >? 0 then
                match GetParentCommits repoPath sha contextCount with
                | Success (p :: ps) =>
                    previousReviews (map (contextOf db) (p :: ps))
                | _ => ""
                end
              else ""
          | None => ""
          end.
Proof.
  destruct (db b) as [d|]; [|now rewrite append_nil_r].
  destruct (contextCount >? 0); [|now rewrite append_nil_r].
  rewrite getPreviousReviewContexts_eq.
  destruct (GetParentCommits repoPath sha contextCount) as [[|p ps]|err];
    try (cbn; now rewrite append_nil_r).
  assert (Hlen : 0 < llen (map (contextOf d) (p :: ps))).
  { unfold llen. rewrite length_map. cbn [List.length]. lia. }
  destruct (llen (map (contextOf d) (p :: ps)) >? 0) eqn:E; [|lia].
  apply writePreviousReviews_eq.
Qed.

End PromptFacts.

(** X18.  [getPreviousReviewContexts] fails exactly when git cannot list
    the parents, with the error wrapped as ["get parent commits: ..."];
    otherwise it returns one context per parent commit, in git's order,
    each holding the review the database returned for that commit, or no
    review when the lookup failed: a failed lookup never fails the
    call. *)
Theorem getPreviousReviewContexts_spec :
  forall (G : Git) (db : DB) (repoPath sha : string) (count : Z),
    (forall err : string,
       GetParentCommits repoPath sha count = Failure err ->
       getPreviousReviewContexts db repoPath sha count
       = Failure ("get parent commits: " ++ err))
    /\ (forall parents : list string,
          GetParentCommits repoPath sha count = Success parents ->
          exists contexts : list ReviewContext,
            getPreviousReviewContexts db repoPath sha count = Success contexts
            /\ map SHA contexts = parents
            /\ Forall (fun ctx =>
                         CtxReview ctx
                         = match db (SHA ctx) with
                           | Success review => review
                           | Failure _ => None
                           end) contexts).
Proof.
  intros G db repoPath sha count. rewrite getPreviousReviewContexts_eq.
  split.
  - intros err ->. reflexivity.
  - intros parents ->. exists (map (contextOf db) parents).
    split; [reflexivity|]. split.
    + rewrite map_map. cbn [contextOf SHA]. apply map_id.
    + apply Forall_map. apply Forall_forall. intros p _. reflexivity.
Qed.

Lemma getPreviousReviewContexts_spec_witness :
  @getPreviousReviewContexts sampleGit sampleDB "/repo" "aaaaaaa1000" 5
  = Failure "get parent commits: no parents"
  /\ exists contexts : list ReviewContext,
       @getPreviousReviewContexts sampleGit sampleDB "/repo" "ccccccc3000" 5
       = Success contexts
       /\ map SHA contexts = ["bbbbbbb2000"; "aaaaaaa1000"]
       /\ map CtxReview contexts
          = [None; Some {| ReviewAgent := "codex"; Output := "Looks fine.";
                           Job := None |}].
Proof.
  destruct (getPreviousReviewContexts_spec sampleGit sampleDB "/repo"
              "aaaaaaa1000" 5) as [Hfail _].
  destruct (getPreviousReviewContexts_spec sampleGit sampleDB "/repo"
              "ccccccc3000" 5) as [_ Hok].
  split; [exact (Hfail "no parents" eq_refl)|].
  destruct (Hok ["bbbbbbb2000"; "aaaaaaa1000"] eq_refl)
    as (contexts & Heq & Hsha & _).
  exists contexts. split; [exact Heq|]. split; [exact Hsha|].
  vm_compute in Heq. injection Heq as <-. reflexivity.
Defined.


Section PromptBuild.

Context {G : Git}.

Lemma previous_section_eq (b : Builder) (repoPath sha : string)
      (contextCount : Z) (sb : string) :
  match db b with
  | Some db =>
      if contextCount >? 0 then
        match getPreviousReviewContexts db repoPath sha contextCount with
        | Failure _ => sb
        | Success contexts =>
            if llen contexts >? 0 then writePreviousReviews sb contexts
            else sb
        end
      else sb
  | None => sb
  end
  = sb ++ previousSection b repoPath sha contextCount.
Proof. apply previous_section. Qed.

Lemma buildSinglePrompt_eq (b : Builder) (repoPath sha : string)
      (repoID contextCount : Z) :
  buildSinglePrompt b repoPath sha repoID contextCount
  = Success (SystemPromptSingle ++ nl
               ++ previousSection b repoPath sha contextCount
               ++ currentCommitSection sha).
Proof.
  unfold buildSinglePrompt. rewrite previous_section_eq.
  unfold currentCommitSection. f_equal.
  change ("" ++ SystemPromptSingle) with SystemPromptSingle.
  generalize SystemPromptSingle as s0.
  generalize (previousSection b repoPath sha contextCount) as s1.
  generalize (shortSHA sha) as s2. intros s2 s1 s0.
  rewrite !append_assoc. reflexivity.
Qed.

Lemma fold_left_commitLines (repoPath : string) (commits : list string) :
  forall sb : string,
    fold_left
      (fun sb sha =>
         match GetCommitSubject repoPath sha with
         | Success subject =>
             sb ++ "- " ++ shortSHA sha ++ " " ++ subject ++ nl
         | Failure _ => sb ++ "- " ++ shortSHA sha ++ nl
         end)
      commits sb
    = sb ++ concat (map (commitLine repoPath) commits).
Proof.
  induction commits as [|sha rest IH]; intros sb; cbn [fold_left map concat].
  - now rewrite append_nil_r.
  - rewrite IH. unfold commitLine at 2.
    destruct (GetCommitSubject repoPath sha); now rewrite !append_assoc.
Qed.

Lemma buildRangePrompt_eq (b : Builder) (repoPath rangeRef : string)
      (repoID contextCount : Z) :
  buildRangePrompt b repoPath rangeRef repoID contextCount
  = match GetRangeCommits repoPath rangeRef with
    | Failure err => Failure ("get range commits: " ++ err)
    | Success commits =>
        Success (SystemPromptRange ++ nl
                   ++ match GetRangeStart repoPath rangeRef with
                      | Success startSHA =>
                          previousSection b repoPath startSHA contextCount
                      | Failure _ => ""
                      end
                   ++ rangeSection repoPath commits)
    end.
Proof.
  unfold buildRangePrompt.
  destruct (GetRangeCommits repoPath rangeRef) as [commits|err];
    [|reflexivity].
  f_equal. change ("" ++ SystemPromptRange) with SystemPromptRange.
  assert (Hprev :
    match db b with
    | Some db =>
        if contextCount >? 0 then
          match GetRangeStart repoPath rangeRef with
          | Success startSHA =>
              match getPreviousReviewContexts db repoPath startSHA
                      contextCount with
              | Success contexts =>
                  if llen contexts >? 0
                  then writePreviousReviews (SystemPromptRange ++ nl) contexts
                  else SystemPromptRange ++ nl
              | Failure _ => SystemPromptRange ++ nl
              end
          | Failure _ => SystemPromptRange ++ nl
          end
        else SystemPromptRange ++ nl
    | None => SystemPromptRange ++ nl
    end
    = (SystemPromptRange ++ nl)
        ++ match GetRangeStart repoPath rangeRef with
           | Success startSHA =>
               previousSection b repoPath startSHA contextCount
           | Failure _ => ""
           end).
  { destruct (GetRangeStart repoPath rangeRef) as [startSHA|e].
    - rewrite <- (previous_section_eq b repoPath startSHA contextCount).
      destruct (db b) as [d|]; [|reflexivity].
      destruct (contextCount >? 0); [|reflexivity].
      destruct (getPreviousReviewContexts d repoPath startSHA contextCount);
        reflexivity.
    - destruct (db b) as [d|]; [|now rewrite append_nil_r].
      destruct (contextCount >? 0); now rewrite append_nil_r. }
  rewrite fold_left_commitLines. rewrite Hprev. unfold rangeSection.
  generalize SystemPromptRange as s0.
  generalize (match GetRangeStart repoPath rangeRef with
              | Success startSHA =>
                  previousSection b repoPath startSHA contextCount
              | Failure _ => ""
              end) as s1.
  generalize (concat (map (commitLine repoPath) commits)) as s2.
  generalize (itoa (llen commits)) as s3. intros s3 s2 s1 s0.
  rewrite !append_assoc. reflexivity.
Qed.

Lemma previousSection_none (b : Builder) (repoPath sha : string)
      (contextCount : Z) :
  db b = None \/ contextCount <= 0 ->
  previousSection b repoPath sha contextCount = "".
Proof.
  intros H. unfold previousSection. destruct (db b) as [d|]; [|reflexivity].
  destruct (contextCount >? 0) eqn:E; [|reflexivity].
  destruct H as [H|H]; [discriminate | lia].
Qed.

End PromptBuild.

(** X19.  [buildSinglePrompt] never fails, whatever git and the database
    answer.  Its prompt is the single-commit system prompt, a line break,
    the previous-reviews section and the current-commit section, which
    names the first 7 bytes of the SHA.  The previous-reviews section is
    empty when no database is attached, when the context count is not
    positive and when git cannot list the parents; with a database, a
    positive count and at least one parent it is the header followed by
    the parents' reviews, oldest first. *)
Theorem buildSinglePrompt_never_fails :
  forall (G : Git) (b : Builder) (repoPath sha : string)
         (repoID contextCount : Z),
    buildSinglePrompt b repoPath sha repoID contextCount
    = Success (SystemPromptSingle ++ nl
                 ++ previousSection b repoPath sha contextCount
                 ++ currentCommitSection sha)
    /\ len (shortSHA sha) = Z.min 7 (len sha)
    /\ HasPrefix sha (shortSHA sha) = true
    /\ (db b = None \/ contextCount <= 0 ->
        previousSection b repoPath sha contextCount = "")
    /\ (forall err : string,
          GetParentCommits repoPath sha contextCount = Failure err ->
          previousSection b repoPath sha contextCount = "")
    /\ (forall (d : DB) (p : string) (ps : list string),
          db b = Some d -> 0 < contextCount ->
          GetParentCommits repoPath sha contextCount = Success (p :: ps) ->
          previousSection b repoPath sha contextCount
          = previousReviews (map (contextOf d) (p :: ps))).
Proof.
  intros G b repoPath sha repoID contextCount.
  split; [apply buildSinglePrompt_eq|].
  split; [apply len_shortSHA|]. split; [|split; [|split]].
  - unfold HasPrefix, shortSHA, slice_to.
    destruct (len sha >? 7); [apply prefix_take | apply prefix_refl].
  - apply previousSection_none.
  - intros err Herr. unfold previousSection. rewrite Herr.
    destruct (db b); [destruct (contextCount >? 0)|]; reflexivity.
  - intros d p ps Hd Hc Hp. unfold previousSection. rewrite Hd, Hp.
    destruct (contextCount >? 0) eqn:E; [reflexivity | lia].
Qed.

Lemma buildSinglePrompt_never_fails_witness :
  @buildSinglePrompt sampleGit (NewBuilder (Some sampleDB)) "/repo"
    "ccccccc3000" 1 5
  = Success (SystemPromptSingle ++ nl
               ++ previousReviews (map (contextOf sampleDB)
                                       ["bbbbbbb2000"; "aaaaaaa1000"])
               ++ currentCommitSection "ccccccc3000")
  /\ @previousSection sampleGit (NewBuilder (Some sampleDB)) "/repo"
       "ccccccc3000" 0 = ""
  /\ @previousSection sampleGit (NewBuilder (Some sampleDB)) "/repo"
       "aaaaaaa1000" 5 = "".
Proof.
  destruct (buildSinglePrompt_never_fails sampleGit
              (NewBuilder (Some sampleDB)) "/repo" "ccccccc3000" 1 5)
    as (Heq & _ & _ & _ & _ & Hprev).
  destruct (buildSinglePrompt_never_fails sampleGit
              (NewBuilder (Some sampleDB)) "/repo" "ccccccc3000" 1 0)
    as (_ & _ & _ & Hnone & _).
  destruct (buildSinglePrompt_never_fails sampleGit
              (NewBuilder (Some sampleDB)) "/repo" "aaaaaaa1000" 1 5)
    as (_ & _ & _ & _ & Hfail & _).
  split; [|split].
  - rewrite Heq.
    rewrite (Hprev sampleDB "bbbbbbb2000" ["aaaaaaa1000"] eq_refl
               ltac:(lia) eq_refl).
    reflexivity.
  - apply Hnone. right. lia.
  - apply (Hfail "no parents"). reflexivity.
Defined.

(** X20.  [buildRangePrompt] fails exactly when git cannot list the
    commits of the range, with the error wrapped as
    ["get range commits: ..."]; a range start that cannot be resolved, a
    commit whose information cannot be read and a failing database only
    shorten the prompt.  On success the prompt is the range system
    prompt, a line break, the previous reviews of the commit the range
    starts from, and the range section: the number of commits and one
    line per commit, in git's order, with the first 7 bytes of its SHA
    and, when git can read it, its subject. *)
Theorem buildRangePrompt_spec :
  forall (G : Git) (b : Builder) (repoPath rangeRef : string)
         (repoID contextCount : Z),
    (forall err : string,
       GetRangeCommits repoPath rangeRef = Failure err ->
       buildRangePrompt b repoPath rangeRef repoID contextCount
       = Failure ("get range commits: " ++ err))
    /\ (forall commits : list string,
          GetRangeCommits repoPath rangeRef = Success commits ->
          buildRangePrompt b repoPath rangeRef repoID contextCount
          = Success (SystemPromptRange ++ nl
                       ++ rangePreviousSection b repoPath rangeRef contextCount
                       ++ rangeSection repoPath commits))
    /\ (forall e : string,
          GetRangeStart repoPath rangeRef = Failure e ->
          rangePreviousSection b repoPath rangeRef contextCount = "")
    /\ (forall sha subject : string,
          GetCommitSubject repoPath sha = Success subject ->
          commitLine repoPath sha
          = "- " ++ shortSHA sha ++ " " ++ subject ++ nl)
    /\ (forall sha e : string,
          GetCommitSubject repoPath sha = Failure e ->
          commitLine repoPath sha = "- " ++ shortSHA sha ++ nl).
Proof.
  intros G b repoPath rangeRef repoID contextCount.
  rewrite buildRangePrompt_eq. fold (rangePreviousSection b repoPath rangeRef
                                       contextCount).
  split; [|split; [|split; [|split]]].
  - intros err ->. reflexivity.
  - intros commits ->. reflexivity.
  - intros e He. unfold rangePreviousSection. now rewrite He.
  - intros sha subject Hs. unfold commitLine. now rewrite Hs.
  - intros sha e Hs. unfold commitLine. now rewrite Hs.
Qed.

Lemma buildRangePrompt_spec_witness :
  @buildRangePrompt brokenGit (NewBuilder (Some sampleDB)) "/repo" "a..b" 1 5
  = Failure "get range commits: bad revision"
  /\ @buildRangePrompt sampleGit (NewBuilder (Some sampleDB)) "/repo"
       "aaaaaaa1..ccccccc3" 1 5
     = Success (SystemPromptRange ++ nl
                  ++ "## Commit Range" ++ nl ++ nl
                  ++ "Reviewing 2 commits:" ++ nl ++ nl
                  ++ "- bbbbbbb Fix the parser" ++ nl
                  ++ "- ccccccc" ++ nl ++ nl).
Proof.
  destruct (buildRangePrompt_spec brokenGit (NewBuilder (Some sampleDB))
              "/repo" "a..b" 1 5) as [Hfail _].
  destruct (buildRangePrompt_spec sampleGit (NewBuilder (Some sampleDB))
              "/repo" "aaaaaaa1..ccccccc3" 1 5) as [_ [Hok _]].
  split; [exact (Hfail "bad revision" eq_refl)|].
  rewrite (Hok ["bbbbbbb2000"; "ccccccc3000"] eq_refl). reflexivity.
Defined.

(** X21.  [Build] fails in one situation only: the reference is a range
    and git cannot list its commits.  On a single commit it succeeds
    whatever git and the database answer. *)
Theorem Build_fails_iff :
  forall (G : Git) (b : Builder) (repoPath gitRef : string)
         (repoID contextCount : Z) (e : string),
    Build b repoPath gitRef repoID contextCount = Failure e
    <-> (IsRange gitRef = true
         /\ exists err : string,
              GetRangeCommits repoPath gitRef = Failure err
              /\ e = "get range commits: " ++ err).
Proof.
  intros G b repoPath gitRef repoID contextCount e. unfold Build.
  destruct (IsRange gitRef) eqn:Hr.
  - rewrite buildRangePrompt_eq.
    destruct (GetRangeCommits repoPath gitRef) as [commits|err]; split.
    + discriminate.
    + intros (_ & err & Herr & _). discriminate.
    + intros H. injection H as <-. split; [reflexivity|]. now exists err.
    + intros (_ & err' & Herr & ->). now injection Herr as <-.
  - rewrite buildSinglePrompt_eq. split; [discriminate|].
    intros (H & _). discriminate.
Qed.

Lemma Build_fails_iff_witness :
  @Build brokenGit (NewBuilder None) "/repo" "HEAD" 1 0
  = Failure "get range commits: bad revision".
Proof.
  apply (Build_fails_iff brokenGit (NewBuilder None) "/repo" "HEAD" 1 0).
  split; [reflexivity|]. exists "bad revision". split; reflexivity.
Defined.

(** X22.  Without a database, or with a context count that is not
    positive, [Build] returns what [BuildSimple] returns: the prompt has
    no previous-reviews section.  For a single commit [BuildSimple] is
    the system prompt, a line break and the current-commit section. *)
Theorem Build_without_context :
  forall (G : Git) (b : Builder) (repoPath gitRef : string)
         (repoID contextCount : Z),
    (db b = None \/ contextCount <= 0 ->
     Build b repoPath gitRef repoID contextCount
     = BuildSimple repoPath gitRef)
    /\ (IsRange gitRef = false ->
        BuildSimple repoPath gitRef
        = Success (SystemPromptSingle ++ nl ++ currentCommitSection gitRef))
    /\ (forall commits : list string,
          IsRange gitRef = true ->
          GetRangeCommits repoPath gitRef = Success commits ->
          BuildSimple repoPath gitRef
          = Success (SystemPromptRange ++ nl ++ rangeSection repoPath commits)).
Proof.
  intros G b repoPath gitRef repoID contextCount.
  assert (Hsimple : forall sha,
             previousSection {| db := None |} repoPath sha 0 = "")
    by (intros sha; apply previousSection_none; now left).
  split; [|split].
  - intros Hnone. unfold BuildSimple, Build.
    destruct (IsRange gitRef).
    + rewrite !buildRangePrompt_eq.
      destruct (GetRangeCommits repoPath gitRef); [|reflexivity].
      destruct (GetRangeStart repoPath gitRef) as [startSHA|]; [|reflexivity].
      now rewrite Hsimple, previousSection_none.
    + rewrite !buildSinglePrompt_eq.
      now rewrite Hsimple, previousSection_none.
  - intros Hr. unfold BuildSimple, Build. rewrite Hr, buildSinglePrompt_eq.
    now rewrite Hsimple.
  - intros commits Hr Hc. unfold BuildSimple, Build.
    rewrite Hr, buildRangePrompt_eq, Hc.
    destruct (GetRangeStart repoPath gitRef); [now rewrite Hsimple|reflexivity].
Qed.

Lemma Build_without_context_witness :
  @Build sampleGit (NewBuilder (Some sampleDB)) "/repo" "ccccccc3000" 1 0
  = @BuildSimple sampleGit "/repo" "ccccccc3000"
  /\ @BuildSimple sampleGit "/repo" "ccccccc3000"
     = Success (SystemPromptSingle ++ nl
                  ++ "## Current Commit" ++ nl ++ nl
                  ++ "Review the following commit: ccccccc" ++ nl).
Proof.
  destruct (Build_without_context sampleGit (NewBuilder (Some sampleDB))
              "/repo" "ccccccc3000" 1 0) as (Hsame & Hsingle & _).
  split; [apply Hsame; right; lia|].
  rewrite (Hsingle eq_refl). reflexivity.
Defined.

(* ================================================================== *)
(** * The frame of the queue screen *)

Lemma index_In {A : Type} (l : list A) (i : Z) (a : A) :
  index l i = Ok a -> In a l.
Proof.
  unfold index. destruct ((i <? 0) || (i >=? llen l)); [discriminate|].
  destruct (nth_error l (Z.to_nat i)) as [x|] eqn:E; [|discriminate].
  intros H. injection H as <-. eapply nth_error_In. exact E.
Qed.

Section QueueFrame.

Context {T : Terminal}.

Lemma renderJobLine_eq (job : ReviewJob) :
  len (Status job) <= int_max -> renderJobLine job = Ok (jobLine job).
Proof.
  intros Hst. pose proof (len_nonneg (Status job)) as Hst0.
  unfold renderJobLine, jobLine, statusColumn, elapsedColumn, refColumn,
    repoColumn, agentColumn.
  rewrite int_sub_small by zlia.
  destruct (8 - len (Status job) >? 0) eqn:E.
  - unfold Repeat.
    destruct (8 - len (Status job) <? 0) eqn:E0; [lia|].
    cbn [bind]. reflexivity.
  - cbn [bind]. replace (Z.to_nat (8 - len (Status job))) with O by lia.
    cbn [repeat_nat]. rewrite append_nil_r. reflexivity.
Qed.

(** The row loop of the queue screen writes the rows of
    [jobs[start:end]]. *)
Lemma forRange_jobRows (m : Model) (end_ : Z) :
  end_ <= llen (jobs m) -> end_ <= int_max -> statuses_fit (jobs m) ->
  forall (k : nat) (i : Z) (b : string),
    0 <= i -> k = Z.to_nat (end_ - i) ->
    forRange k i end_
      (fun i =>
         job <- index (jobs m) i ;;
         line <- renderJobLine job ;;
         let line :=
           if i =? selectedIdx m then selectedStyle ("> " ++ line)
           else "  " ++ line in
         Ok (line ++ nl))
      b
    = Ok (b ++ jobRows m i (sliceOf (jobs m) i end_)).
Proof.
  intros Hend Hmax Hfit. unfold sliceOf.
  induction k as [|k IH]; intros i b Hi Hk.
  - rewrite <- Hk. cbn. now rewrite append_nil_r.
  - cbn [forRange]. destruct (i <? end_) eqn:E; [|lia].
    destruct (index_skipn (jobs m) i ltac:(lia)) as (job & Hidx & Hskip).
    rewrite Hidx. cbn [bind].
    assert (Hjob : len (Status job) <= int_max).
    { unfold statuses_fit in Hfit. rewrite Forall_forall in Hfit.
      apply Hfit. eapply index_In. exact Hidx. }
    rewrite (renderJobLine_eq job Hjob). cbn [bind].
    rewrite int_add_small by zlia.
    rewrite (IH (i + 1) _ ltac:(lia) ltac:(lia)).
    rewrite <- Hk, Hskip. cbn [firstn jobRows].
    replace (Z.to_nat (end_ - (i + 1))) with k by lia.
    replace (Z.to_nat (i + 1)) with (S (Z.to_nat i)) by lia.
    unfold jobRow. now rewrite !append_assoc.
Qed.

Lemma renderQueueView_eq (m : Model) :
  jobs_fit m -> statuses_fit (jobs m) ->
  jobs m <> [] -> 0 <= int_sub (width m) 4 ->
  let w := queueWindow (llen (jobs m)) (visibleJobs (height m))
                       (selectedIdx m) in
  renderQueueView m
  = Ok (titleStyle "RoboRev Queue" ++ nl
          ++ statusStyle (queueStatusLine m) ++ nl ++ nl
          ++ statusStyle queueHeader ++ nl
          ++ "  " ++ repeat_nat "-" (Z.to_nat (Z.min (int_sub (width m) 4) 78))
          ++ nl
          ++ jobRows m (fst w) (sliceOf (jobs m) (fst w) (snd w))
          ++ (if llen (jobs m) >? visibleJobs (height m)
              then statusStyle
                     (queueScrollInfo (fst w) (snd w) (llen (jobs m))) ++ nl
              else "")
          ++ helpStyle "up/down: navigate | enter: view review | q: quit").
Proof.
  intros Hfit Hst Hne Hw w.
  pose proof (Nat2Z.is_nonneg (List.length (jobs m))) as Hn0.
  fold (llen (jobs m)) in Hn0. unfold jobs_fit in Hfit.
  destruct (queueWindow_inside (llen (jobs m)) (visibleJobs (height m))
              (selectedIdx m) ltac:(lia) (visibleJobs_bounds (height m)))
    as [Hs He]. fold w in Hs, He.
  unfold renderQueueView. fold (queueStatusLine m). fold (@queueHeader T).
  destruct (Z.eqb_spec (llen (jobs m)) 0) as [E|E].
  { unfold llen in E. destruct (jobs m); [contradiction | cbn in E; lia]. }
  unfold Repeat.
  destruct (Z.min (int_sub (width m) 4) 78 <? 0) eqn:Em; [lia|].
  cbn [bind]. fold w. destruct w as [start end_]. cbn [fst snd] in *.
  rewrite (forRange_jobRows m end_ He ltac:(lia) Hst
             (Z.to_nat (end_ - start)) start _ Hs eq_refl).
  cbn [bind].
  generalize (jobRows m start (sliceOf (jobs m) start end_)) as rows.
  generalize (repeat_nat "-" (Z.to_nat (Z.min (int_sub (width m) 4) 78)))
    as rule.
  generalize (statusStyle (queueScrollInfo start end_ (llen (jobs m))))
    as footer.
  generalize (statusStyle (queueStatusLine m)) as st.
  generalize (statusStyle queueHeader) as hd.
  generalize (titleStyle "RoboRev Queue") as title.
  generalize (helpStyle "up/down: navigate | enter: view review | q: quit")
    as help.
  intros help title hd st footer rule rows.
  destruct (llen (jobs m) >? visibleJobs (height m)); cbn [bind append];
    rewrite ?append_assoc, ?append_nil_r; cbn [append];
    rewrite ?append_assoc; reflexivity.
Qed.

End QueueFrame.

(** X23.  The frame of the queue screen.  With no job, it is the title,
    the status summary, ["No jobs in queue"] and the help line, whatever
    the width, the height and the selection.  With jobs, on a terminal at
    least 4 columns wide, it is the title, the status summary, the column
    header, a rule of [min (width - 4) 78] dashes, the rows of the jobs
    [start .. end-1] of the window in the order of the list (the row at
    the selected index marked with ["> "] and styled, the others
    indented by two spaces), the ["[showing ...]"] footer when the list
    is longer than the viewport, and the help line. *)
Theorem renderQueueView_frame :
  forall (T : Terminal) (m : Model),
    jobs_fit m -> statuses_fit (jobs m) ->
    (jobs m = [] ->
     renderQueueView m
     = Ok (titleStyle "RoboRev Queue" ++ nl
             ++ statusStyle (queueStatusLine m) ++ nl ++ nl
             ++ "No jobs in queue" ++ nl
             ++ helpStyle "up/down: navigate | enter: view review | q: quit"))
    /\ (jobs m <> [] -> 0 <= int_sub (width m) 4 ->
        let w := queueWindow (llen (jobs m)) (visibleJobs (height m))
                             (selectedIdx m) in
        renderQueueView m
        = Ok (titleStyle "RoboRev Queue" ++ nl
                ++ statusStyle (queueStatusLine m) ++ nl ++ nl
                ++ statusStyle queueHeader ++ nl
                ++ "  "
                ++ repeat_nat "-" (Z.to_nat (Z.min (int_sub (width m) 4) 78))
                ++ nl
                ++ jobRows m (fst w) (sliceOf (jobs m) (fst w) (snd w))
                ++ (if llen (jobs m) >? visibleJobs (height m)
                    then statusStyle
                           (queueScrollInfo (fst w) (snd w) (llen (jobs m)))
                           ++ nl
                    else "")
                ++ helpStyle
                     "up/down: navigate | enter: view review | q: quit")).
Proof.
  intros T m Hfit Hst. split.
  - intros Hnil. unfold renderQueueView. fold (queueStatusLine m).
    rewrite Hnil. cbn [llen List.length Z.of_nat Z.eqb bind].
    generalize (statusStyle (queueStatusLine m)) as st.
    generalize (titleStyle "RoboRev Queue") as title.
    generalize (helpStyle "up/down: navigate | enter: view review | q: quit")
      as help.
    intros help title st. cbn [append].
    rewrite ?append_assoc. cbn [append]. reflexivity.
  - intros Hne Hw. apply renderQueueView_eq; assumption.
Qed.

Lemma renderQueueView_frame_witness :
  @renderQueueView plainTerminal (set_selectedIdx threeJobs 1)
  = Ok ("RoboRev Queue" ++ nl
          ++ "Workers: 0/0 | Queued: 0 | Running: 0 | Done: 0 | Failed: 0 | Size: 80x24"
          ++ nl ++ nl
          ++ "  ID   Ref               Repo            Agent        Status   Time"
          ++ nl
          ++ "  ----------------------------------------------------------------------------"
          ++ nl
          ++ "  7                                                   failed   " ++ nl
          ++ "> 8    HEAD              roborev         codex        queued   " ++ nl
          ++ "  9    0123456789abcdef0 a-very-long-... claude-code- done     65s"
          ++ nl
          ++ "up/down: navigate | enter: view review | q: quit")
  /\ @renderQueueView plainTerminal (NewModel "")
     = Ok ("RoboRev Queue" ++ nl
             ++ "Workers: 0/0 | Queued: 0 | Running: 0 | Done: 0 | Failed: 0 | Size: 80x24"
             ++ nl ++ nl ++ "No jobs in queue" ++ nl
             ++ "up/down: navigate | enter: view review | q: quit").
Proof.
  destruct (renderQueueView_frame plainTerminal (set_selectedIdx threeJobs 1))
    as [_ Hrows].
  - vm_compute. discriminate.
  - repeat constructor; vm_compute; discriminate.
  - destruct (renderQueueView_frame plainTerminal (NewModel "")) as [Hempty _].
    + vm_compute. discriminate.
    + constructor.
    + split.
      * rewrite Hrows; [vm_compute; reflexivity | discriminate
                        | vm_compute; discriminate].
      * rewrite (Hempty eq_refl). vm_compute. reflexivity.
Defined.
